(** * Backups Reporter: a shallow embedding of [backups_reporter.py]

    The development follows the source file class by class:
    [BackupEntry], [WebhookNotifier], [BorgRepository], [S3Bucket],
    [EmailReporter] and [BackupsReporter].  The outside world (the HTTP
    endpoints, the [borg] processes, the mounted file trees, the bucket
    listings, the SMTP server and the clock) is an explicit input; Python
    exceptions are values of [exn] carried by [outcome]; the externally
    visible actions of a run are recorded in a trace of [event]s.
    Calls to [logging] do not influence control flow and are left out. *)

From Stdlib Require Import ZArith List Bool Ascii String DecimalString.
From Stdlib Require Import Lia Permutation Sorted.
Import ListNotations.
Set Warnings "-register-all".
Open Scope Z_scope.

(** ** Python exceptions and results *)

(** The exception classes that the handlers of the program tell apart.
    [PermissionError] and [FileNotFoundError] are subclasses of [OSError];
    every class below is a subclass of [Exception]. *)
Inductive exn : Type :=
| OSError
| PermissionError
| FileNotFoundError
| TimeoutExpired
| RequestException
| ClientError
| OverflowError
| SMTPException
| RuntimeError.

Definition isinstance_OSError (e : exn) : bool :=
  match e with
  | OSError | PermissionError | FileNotFoundError => true
  | _ => false
  end.

Definition isinstance_RequestException (e : exn) : bool :=
  match e with RequestException => true | _ => false end.

Inductive outcome (A : Type) : Type :=
| Ret (a : A)
| Raise (e : exn).
Arguments Ret {A} a.
Arguments Raise {A} e.

Definition obind {A B} (o : outcome A) (k : A -> outcome B) : outcome B :=
  match o with
  | Ret a => k a
  | Raise e => Raise e
  end.

(** ** Python list operations used by the program *)

(** [l[:stop]]: a negative [stop] counts from the end of the list and a
    [stop] beyond either end is clamped. *)
Definition slice_to {A} (l : list A) (stop : Z) : list A :=
  if stop <? 0
  then firstn (Z.to_nat (Z.of_nat (List.length l) + stop)) l
  else firstn (Z.to_nat stop) l.

(** [config.get(key, default)] *)
Definition get_default {A} (o : option A) (d : A) : A :=
  match o with Some a => a | None => d end.

(** ** BackupEntry *)

(** A [datetime] that carries the UTC time zone is the number of
    microseconds since the epoch; comparing two of them compares the
    instants. *)
Definition datetime := Z.

Record BackupEntry : Type := mkBackupEntry {
  source : string;
  name : string;
  timestamp : datetime;
  size : option Z;
  type : string
}.

(** [entries.sort(key=lambda x: x.timestamp, reverse=True)].  Python's sort
    is stable, also with [reverse=True]: the result is descending by key and
    entries with equal keys keep the order they had.  [sort_desc] is the
    stable insertion sort: the head of the list is put in front of the first
    entry of the sorted tail that is not newer than it. *)
Fixpoint insert_desc (x : BackupEntry) (l : list BackupEntry) : list BackupEntry :=
  match l with
  | [] => [x]
  | y :: l' =>
      if timestamp y <=? timestamp x then x :: y :: l'
      else y :: insert_desc x l'
  end.

Fixpoint sort_desc (l : list BackupEntry) : list BackupEntry :=
  match l with
  | [] => []
  | x :: l' => insert_desc x (sort_desc l')
  end.

(** Descending by timestamp: every entry is at least as new as all the
    entries after it. *)
Definition sorted_desc (l : list BackupEntry) : Prop :=
  StronglySorted (fun a b => timestamp b <= timestamp a) l.

(** ** Python string operations used by the program *)

Module PyStr.

(** [needle in s] *)
Fixpoint contains (needle s : string) : bool :=
  String.prefix needle s
  || match s with
     | EmptyString => false
     | String _ s' => contains needle s'
     end.

(** [s.startswith(p)] *)
Definition startswith (p s : string) : bool := String.prefix p s.

(** [s.endswith(suffix)] *)
Fixpoint endswith (suffix s : string) : bool :=
  String.eqb s suffix
  || match s with
     | EmptyString => false
     | String _ s' => endswith suffix s'
     end.

(** [s.replace(old, new)] for a non-empty [old]: every occurrence found
    scanning from the left is replaced, occurrences do not overlap.
    [skip] counts the characters of a match still to be dropped. *)
Fixpoint replace_from (old new : string) (skip : nat) (s : string) : string :=
  match s with
  | EmptyString => EmptyString
  | String c s' =>
      match skip with
      | S k => replace_from old new k s'
      | O =>
          if String.prefix old s
          then new ++ replace_from old new (String.length old - 1) s'
          else String c (replace_from old new 0 s')
      end
  end.

Definition replace (old new s : string) : string := replace_from old new 0 s.

(** [sep.join(parts)] *)
Fixpoint join (sep : string) (parts : list string) : string :=
  match parts with
  | [] => EmptyString
  | [p] => p
  | p :: ps => p ++ sep ++ join sep ps
  end.

End PyStr.

(** ** State and exceptions *)

(** A computation reads and updates a state of type [S] and either returns
    or raises; the state reached when an exception is raised is kept, as
    Python keeps the assignments made before a [raise]. *)
Definition ST (S A : Type) : Type := S -> outcome A * S.

Definition ret {S A} (a : A) : ST S A := fun s => (Ret a, s).

Definition raise {S A} (e : exn) : ST S A := fun s => (Raise e, s).

Definition bind {S A B} (m : ST S A) (k : A -> ST S B) : ST S B :=
  fun s =>
    match m s with
    | (Ret a, s') => k a s'
    | (Raise e, s') => (Raise e, s')
    end.

(** [try: m  except <classes matched by handles> as e: h e] *)
Definition try_except {S A} (m : ST S A) (handles : exn -> bool)
    (h : exn -> ST S A) : ST S A :=
  fun s =>
    match m s with
    | (Ret a, s') => (Ret a, s')
    | (Raise e, s') => if handles e then h e s' else (Raise e, s')
    end.

Definition lift {S A} (o : outcome A) : ST S A := fun s => (o, s).

Definition get {S} : ST S S := fun s => (Ret s, s).

Definition modify {S} (f : S -> S) : ST S unit := fun s => (Ret tt, f s).

Declare Scope st_scope.
Delimit Scope st_scope with st.
Notation "x <- m ;; k" := (bind m (fun x => k))
  (at level 61, m at next level, right associativity) : st_scope.
Notation "m ;;; k" := (bind m (fun _ => k))
  (at level 61, right associativity) : st_scope.
Open Scope st_scope.

(** [for x in xs: body x] *)
Fixpoint for_each {S X} (xs : list X) (body : X -> ST S unit) : ST S unit :=
  match xs with
  | [] => ret tt
  | x :: xs' => body x ;;; for_each xs' body
  end.

(** [except Exception] catches every class of [exn]. *)
Definition isinstance_Exception (e : exn) : bool := true.

(** ** The trace of a run *)

Inductive post_body : Type :=
| DataBody (message : string)
| JsonBody (status message : string) (now : datetime).

Inductive event : Type :=
| HttpPost (url : string) (body : post_body)
| BorgMount (repo : nat) (repository mount_point : string) (borg_rsh : option string)
| BorgUnmount (repo : nat)
| SmtpSend (to_emails : list string) (html : string).

Definition trace := list event.

Definition emit (ev : event) : ST trace unit := modify (fun tr => tr ++ [ev]).

(** What the run cannot decide: the answer of an HTTP endpoint to a POST
    (a status code, or an exception of the HTTP library), the clock, and
    the result of handing a message to the SMTP server.  Each may depend
    on everything that has happened so far. *)
Record World : Type := mkWorld {
  http_post : trace -> string -> post_body -> outcome Z;
  clock : trace -> datetime;
  smtp_deliver : trace -> string -> outcome unit
}.

(** ** WebhookNotifier *)

Module WebhookNotifier.

Section Ping.
Variable w : World.

(** [response.raise_for_status()]: a 4xx or 5xx answer raises
    [HTTPError], a [RequestException]. *)
Definition raise_for_status (status_code : Z) : ST trace unit :=
  if (400 <=? status_code) && (status_code <? 600)
  then raise RequestException
  else ret tt.

(** [self.session.post(url, ...)] *)
Definition post (url : string) (body : post_body) : ST trace Z :=
  tr <- get ;;
  emit (HttpPost url body) ;;;
  lift (http_post w tr url body).

Definition is_healthcheck (webhook : string) : bool :=
  PyStr.contains "healthchecks.io" webhook
  || PyStr.endswith "/start" webhook
  || PyStr.endswith "/fail" webhook.

Definition healthcheck_url (status webhook : string) : string :=
  if String.eqb status "start" then
    if PyStr.endswith "/start" webhook then webhook else webhook ++ "/start"
  else if String.eqb status "fail" then
    if PyStr.endswith "/fail" webhook then webhook else webhook ++ "/fail"
  else PyStr.replace "/fail" EmptyString (PyStr.replace "/start" EmptyString webhook).

(** The body of the [try] for one webhook. *)
Definition send_one (status message webhook : string) : ST trace unit :=
  if is_healthcheck webhook then
    code <- post (healthcheck_url status webhook) (DataBody message) ;;
    raise_for_status code
  else
    tr <- get ;;
    code <- post webhook (JsonBody status message (clock w tr)) ;;
    raise_for_status code.

Definition ping (webhooks : list string) (status message : string) : ST trace unit :=
  for_each webhooks (fun webhook =>
    try_except (send_one status message webhook)
      isinstance_RequestException
      (fun _ => ret tt)).

(** The request that [ping] addresses to one webhook. *)
Definition target_url (status webhook : string) : string :=
  if is_healthcheck webhook then healthcheck_url status webhook else webhook.

End Ping.

End WebhookNotifier.

(** ** BorgRepository *)

Module BorgRepository.

(** The keys of one entry of [borg_repositories], with the defaults of
    [__init__] applied. *)
Record Config : Type := mkConfig {
  name : string;
  repository : string;
  passphrase : option string;
  calculate_sizes : bool;
  ssh_strict_host_key_checking : bool;
  ssh_known_hosts_file : option string
}.

(** A node of a mounted file tree.  A file answers [os.path.getsize] with
    its size or with an exception; a directory that cannot be scanned is
    passed over by [os.walk], whose [onerror] is left at [None]. *)
Inductive fs_node : Type :=
| File (fname : string) (getsize : outcome Z)
| Dir (dname : string) (readable : bool) (children : list fs_node).

(** One child of the mount point, as [iterdir], [is_dir] and [stat]
    show it, with what [os.walk] finds there: whether the directory itself
    can be scanned, and what it holds. *)
Record dir_item : Type := mkItem {
  item_name : string;
  is_dir : outcome bool;
  stat_mtime : outcome datetime;
  scannable : bool;
  contents : list fs_node
}.

(** What one repository does during a run. *)
Record Env : Type := mkEnv {
  mkdtemp : outcome string;
  mount_run : outcome (Z * string);
  iterdir_items : list dir_item;
  iterdir_error : option exn;
  mount_point_exists : bool;
  umount_run : outcome unit;
  rmdir : outcome unit
}.

(** The instance: its configuration and [self.mount_point]. *)
Record t : Type := mkRepo {
  config : Config;
  mount_point : option string
}.

Definition init (c : Config) : t := mkRepo c None.

(** Truth value of an optional string: [None] and the empty string are
    false. *)
Definition truthy (o : option string) : bool :=
  match o with
  | None => false
  | Some s => negb (String.eqb s EmptyString)
  end.

Definition ssh_options (c : Config) : list string :=
  if negb (ssh_strict_host_key_checking c)
  then ["-o"; "StrictHostKeyChecking=no"; "-o"; "UserKnownHostsFile=/dev/null"]%string
  else if truthy (ssh_known_hosts_file c)
  then ["-o"%string;
        ("UserKnownHostsFile="
           ++ get_default (ssh_known_hosts_file c) EmptyString)%string]
  else [].

Definition borg_rsh (c : Config) : option string :=
  if PyStr.startswith "ssh://" (repository c) || PyStr.startswith "user@" (repository c)
  then match ssh_options c with
       | [] => None
       | opts => Some ("ssh " ++ PyStr.join " " opts)%string
       end
  else None.

(** [mount]: returns the instance with [mount_point] assigned and the
    boolean result.  Every exception raised inside is caught. *)
Definition mount (idx : nat) (env : Env) (r : t) : ST trace (t * bool) :=
  match mkdtemp env with
  | Raise _ => ret (r, false)
  | Ret mp =>
      let r' := mkRepo (config r) (Some mp) in
      emit (BorgMount idx (repository (config r)) mp (borg_rsh (config r))) ;;;
      match mount_run env with
      | Ret (returncode, _) => ret (r', returncode =? 0)
      | Raise _ => ret (r', false)
      end
  end.

(** [unmount]: the call is recorded first; what it does afterwards never
    reaches the caller. *)
Definition unmount (idx : nat) (env : Env) (r : t) : ST trace unit :=
  emit (BorgUnmount idx) ;;;
  if truthy (mount_point r) && mount_point_exists env
  then try_except
         (lift (umount_run env) ;;; lift (rmdir env))
         isinstance_Exception
         (fun _ => ret tt)
  else ret tt.

(** [os.walk(top)]: top-down, one triple [(root, dirs, files)] per
    directory that can be scanned; [files] is kept with the answer of
    [getsize] for each. *)
Definition walk_step : Type := string * list string * list (string * outcome Z).

Definition dirnames (children : list fs_node) : list string :=
  flat_map (fun n => match n with Dir d _ _ => [d] | File _ _ => [] end) children.

Definition filenames (children : list fs_node) : list (string * outcome Z) :=
  flat_map (fun n => match n with File f g => [(f, g)] | Dir _ _ _ => [] end) children.

Fixpoint walk_node (root : string) (n : fs_node) : list walk_step :=
  match n with
  | File _ _ => []
  | Dir d readable children =>
      let path := (root ++ "/" ++ d)%string in
      if readable
      then (path, dirnames children, filenames children)
           :: flat_map (walk_node path) children
      else []
  end.

Definition walk (top : string) (readable : bool) (children : list fs_node)
    : list walk_step :=
  if readable
  then (top, dirnames children, filenames children) :: flat_map (walk_node top) children
  else [].

(** The locals [total_size] and [file_count] of
    [_calculate_directory_size]. *)
Record counters : Type := mkCounters { total_size : Z; file_count : Z }.

(** The inner [try] for one file. *)
Definition count_file (file : string * outcome Z) : ST counters unit :=
  try_except
    (file_size <- lift (snd file) ;;
     modify (fun c => mkCounters (total_size c + file_size) (file_count c + 1)))
    isinstance_OSError
    (fun _ => ret tt).

Definition scan_walk (steps : list walk_step) : ST counters unit :=
  for_each steps (fun step => for_each (snd step) count_file).

Definition _calculate_directory_size (directory_path : string)
    (readable : bool) (children : list fs_node) : outcome Z :=
  let '(r, c) :=
    try_except (scan_walk (walk directory_path readable children))
      isinstance_Exception
      (fun _ => ret tt)
      (mkCounters 0 0) in
  obind r (fun _ => Ret (total_size c)).

(** The body of the loop of [list_archives] for one item: the entry it
    appends, if any. *)
Definition archive_entry (mp : string) (c : Config) (item : dir_item)
    : outcome (option BackupEntry) :=
  obind (is_dir item) (fun d =>
    if d then
      obind (stat_mtime item) (fun mtime =>
        obind (if calculate_sizes c
               then obind (_calculate_directory_size
                             (mp ++ "/" ++ item_name item)
                             (scannable item) (contents item))
                      (fun n => Ret (Some n))
               else Ret None)
          (fun archive_size =>
             Ret (Some (mkBackupEntry ("borg:" ++ name c) (item_name item)
                          mtime archive_size "borg_archive"))))
    else Ret None).

Definition append_archive (mp : string) (c : Config) (item : dir_item)
    : ST (list BackupEntry) unit :=
  e <- lift (archive_entry mp c item) ;;
  match e with
  | Some entry => modify (fun entries => entries ++ [entry])
  | None => ret tt
  end.

(** [for item in Path(self.mount_point).iterdir(): ...]; the iterator
    raises [iterdir_error], if any, after its last item. *)
Definition collect_archives (mp : string) (env : Env) (c : Config)
    : ST (list BackupEntry) unit :=
  for_each (iterdir_items env) (append_archive mp c) ;;;
  match iterdir_error env with
  | Some e => raise e
  | None => ret tt
  end.

Definition list_archives (env : Env) (r : t) (limit : Z) : list BackupEntry :=
  match mount_point r with
  | None => []
  | Some mp =>
      if String.eqb mp EmptyString then []
      else
        match collect_archives mp env (config r) [] with
        | (Ret _, entries) => slice_to (sort_desc entries) limit
        | (Raise _, _) => []
        end
  end.

End BorgRepository.

(** ** S3Bucket *)

Module S3Bucket.

Record Config : Type := mkConfig {
  name : string;
  bucket : string;
  prefix : string;
  region : string;
  access_key : option string;
  secret_key : option string;
  endpoint_url : option string
}.

(** One element of a page's ['Contents']. *)
Record s3_object : Type := mkObject {
  Key : string;
  LastModified : datetime;
  Size : Z
}.

(** What one bucket does during a run: the pages that the paginator
    yields, each with or without a ['Contents'] key, and the exception,
    if any, that ends the listing (raised while the session or client is
    set up when there is no page before it). *)
Record Env : Type := mkEnv {
  pages : list (option (list s3_object));
  paginate_error : option exn
}.

Definition object_entry (c : Config) (obj : s3_object) : BackupEntry :=
  mkBackupEntry ("s3:" ++ name c) (Key obj) (LastModified obj)
    (Some (Size obj)) "s3_object".

Definition append_page (c : Config) (page : option (list s3_object))
    : ST (list BackupEntry) unit :=
  match page with
  | Some contents =>
      for_each contents (fun obj =>
        modify (fun entries => entries ++ [object_entry c obj]))
  | None => ret tt
  end.

Definition collect_objects (env : Env) (c : Config) : ST (list BackupEntry) unit :=
  for_each (pages env) (append_page c) ;;;
  match paginate_error env with
  | Some e => raise e
  | None => ret tt
  end.

(** Both handlers, [except ClientError] and [except Exception], return
    the empty list. *)
Definition list_objects (env : Env) (c : Config) (limit : Z) : list BackupEntry :=
  match collect_objects env c [] with
  | (Ret _, entries) => slice_to (sort_desc entries) limit
  | (Raise _, _) => []
  end.

End S3Bucket.

(** ** Numbers and dates as text *)

Module PyFmt.

(** [str(n)] for an integer *)
Definition str_int (n : Z) : string := NilZero.string_of_int (Z.to_int n).

(** A non-negative number in at least [width] digits, as [%02d]. *)
Definition zero_padded (width : nat) (n : Z) : string :=
  let s := str_int n in
  (concat EmptyString (repeat "0" (width - String.length s)) ++ s)%string.

(** [float(n)]: the binary64 number nearest to the integer [n], ties to
    the even significand; [OverflowError] when it would reach [2^1024].
    The result is an integer again. *)
Definition float_of_int (n : Z) : outcome Z :=
  let a := Z.abs n in
  if a <? 2 ^ 53 then Ret n
  else
    let e := Z.log2 a - 52 in
    let q := Z.shiftr a e in
    let r := a - Z.shiftl q e in
    let half := 2 ^ (e - 1) in
    let q' := if (half <? r) || ((r =? half) && Z.odd q) then q + 1 else q in
    let m := Z.shiftl q' e in
    if 2 ^ 1024 <=? m then Raise OverflowError else Ret (Z.sgn n * m).

(** The values that the variable [size] of [format_size] takes: the
    integer it starts with, then binary64 numbers of the form
    [num / 1024 ^ scale].  Dividing a binary64 number of magnitude at least
    [1024] by [1024.0] only lowers its exponent, so these are exact. *)
Inductive number : Type :=
| PyInt (n : Z)
| PyFloat (num : Z) (scale : nat).

Definition to_float (x : number) : outcome (Z * nat) :=
  match x with
  | PyInt n => obind (float_of_int n) (fun m => Ret (m, O))
  | PyFloat m k => Ret (m, k)
  end.

(** [x < 1024.0]; Python compares an integer with a float exactly. *)
Definition lt_1024 (x : number) : bool :=
  match x with
  | PyInt n => n <? 1024
  | PyFloat m k => m <? 1024 * 1024 ^ Z.of_nat k
  end.

(** [x / 1024.0] *)
Definition div_1024 (x : number) : outcome number :=
  obind (to_float x) (fun '(m, k) => Ret (PyFloat m (S k))).

(** [num / den] with one digit after the point, correctly rounded, ties
    to the even digit, as the format [.1f] prints a float. *)
Definition fixed1 (num den : Z) : string :=
  let a := 10 * Z.abs num in
  let t := a / den in
  let r := a mod den in
  let t' := if (den <? 2 * r) || ((2 * r =? den) && Z.odd t) then t + 1 else t in
  let sign := if num <? 0 then "-"%string else EmptyString in
  (sign ++ str_int (t' / 10) ++ "." ++ str_int (t' mod 10))%string.

(** [f"{x:.1f}"]; an integer is converted to a float first. *)
Definition format_1f (x : number) : outcome string :=
  obind (to_float x) (fun '(m, k) => Ret (fixed1 m (1024 ^ Z.of_nat k))).

(** The civil date of a day number counted from 1970-01-01, in the
    proleptic Gregorian calendar. *)
Definition civil_from_days (days : Z) : Z * Z * Z :=
  let z := days + 719468 in
  let era := z / 146097 in
  let doe := z - era * 146097 in
  let yoe := (doe - doe / 1460 + doe / 36524 - doe / 146096) / 365 in
  let doy := doe - (365 * yoe + yoe / 4 - yoe / 100) in
  let mp := (5 * doy + 2) / 153 in
  let d := doy - (153 * mp + 2) / 5 + 1 in
  let m := if mp <? 10 then mp + 3 else mp - 9 in
  let y := yoe + era * 400 in
  (if m <=? 2 then y + 1 else y, m, d).

(** [t.strftime('%Y-%m-%d %H:%M:%S')] for a UTC [datetime] (whose year is
    between 1 and 9999). *)
Definition strftime (t : datetime) : string :=
  let secs := t / 1000000 in
  let '(y, m, d) := civil_from_days (secs / 86400) in
  let sod := secs mod 86400 in
  (zero_padded 4 y ++ "-" ++ zero_padded 2 m ++ "-" ++ zero_padded 2 d
     ++ " " ++ zero_padded 2 (sod / 3600)
     ++ ":" ++ zero_padded 2 (sod mod 3600 / 60)
     ++ ":" ++ zero_padded 2 (sod mod 60))%string.

End PyFmt.

(** ** EmailReporter *)

Module EmailReporter.

Record Config : Type := mkConfig {
  smtp_server : string;
  smtp_port : Z;
  username : option string;
  password : option string;
  from_email : string;
  to_emails : list string;
  use_tls : bool
}.

Definition units : list string := ["B"; "KB"; "MB"; "GB"; "TB"]%string.

(** The [for unit in ...] loop of [format_size] and the [return] after
    it. *)
Fixpoint format_units (us : list string) (size : PyFmt.number) : outcome string :=
  match us with
  | [] => obind (PyFmt.format_1f size) (fun s => Ret (s ++ " PB")%string)
  | unit :: us' =>
      if PyFmt.lt_1024 size
      then obind (PyFmt.format_1f size) (fun s => Ret (s ++ " " ++ unit)%string)
      else obind (PyFmt.div_1024 size) (format_units us')
  end.

Definition format_size (size : option Z) : outcome string :=
  match size with
  | None => Ret "N/A"%string
  | Some n => format_units units (PyFmt.PyInt n)
  end.

(** The double quote character. *)
Definition dq : string := String (ascii_of_nat 34) EmptyString.

(** The three templates of [_generate_html_report], cut at their
    placeholders, with the doubled braces of [str.format] resolved. *)
Definition header_0 : string :=
  ("
        <!DOCTYPE html>
        <html>
        <head>
            <meta charset=" ++ dq ++ "utf-8" ++ dq ++ ">
            <title>Backups Report</title>
            <style>
                body { font-family: Arial, sans-serif; margin: 20px; }
                h1 { color: #333; }
                table { border-collapse: collapse; width: 100%; margin-top: 20px; }
                th, td { border: 1px solid #ddd; padding: 12px; text-align: left; }
                th { background-color: #f2f2f2; font-weight: bold; }
                tr:nth-child(even) { background-color: #f9f9f9; }
                .borg { color: #0066cc; }
                .s3 { color: #ff6600; }
                .timestamp { font-family: monospace; }
                .size { text-align: right; }
            </style>
        </head>
        <body>
            <h1>Backups Report</h1>
            <p>Generated on: ")%string.

Definition header_1 : string :=
  ("</p>
            <p>Total entries: ")%string.

Definition header_2 : string :=
  ("</p>

            <table>
                <thead>
                    <tr>
                        <th>Source</th>
                        <th>Name</th>
                        <th>Timestamp (UTC)</th>
                        <th>Size</th>
                        <th>Type</th>
                    </tr>
                </thead>
                <tbody>
        ")%string.

Definition row_0 : string :=
  ("
                    <tr>
                        <td class=" ++ dq)%string.

Definition row_1 : string :=
  (dq ++ ">")%string.

Definition row_2 : string :=
  ("</td>
                        <td>")%string.

Definition row_3 : string :=
  ("</td>
                        <td class=" ++ dq ++ "timestamp" ++ dq ++ ">")%string.

Definition row_4 : string :=
  ("</td>
                        <td class=" ++ dq ++ "size" ++ dq ++ ">")%string.

Definition row_5 : string :=
  ("</td>
                        <td>")%string.

Definition row_6 : string :=
  ("</td>
                    </tr>
            ")%string.

Definition footer_0 : string :=
  ("
                </tbody>
            </table>
        </body>
        </html>
        ")%string.

Definition source_class (entry : BackupEntry) : string :=
  if PyStr.startswith "borg:" (source entry) then "borg"%string else "s3"%string.

Definition render_row (entry : BackupEntry) : outcome string :=
  obind (format_size (size entry)) (fun size_text =>
    Ret (row_0 ++ source_class entry
         ++ row_1 ++ source entry
         ++ row_2 ++ name entry
         ++ row_3 ++ PyFmt.strftime (timestamp entry)
         ++ row_4 ++ size_text
         ++ row_5 ++ type entry
         ++ row_6)%string).

(** [for entry in entries: html += ...] *)
Fixpoint render_rows (entries : list BackupEntry) (html : string) : outcome string :=
  match entries with
  | [] => Ret html
  | entry :: entries' =>
      obind (render_row entry) (fun r => render_rows entries' (html ++ r)%string)
  end.

(** [now] is the reading of [datetime.now(timezone.utc)]. *)
Definition _generate_html_report (now : datetime) (entries : list BackupEntry)
    : outcome string :=
  let html :=
    (header_0 ++ (PyFmt.strftime now ++ " UTC")
     ++ header_1 ++ PyFmt.str_int (Z.of_nat (List.length entries))
     ++ header_2)%string in
  obind (render_rows entries html) (fun html' => Ret (html' ++ footer_0)%string).

(** [send_report]: the handler logs and raises the exception again. *)
Definition send_report (w : World) (c : Config) (entries : list BackupEntry)
    : ST trace unit :=
  try_except
    (tr <- get ;;
     html_content <- lift (_generate_html_report (clock w tr) entries) ;;
     emit (SmtpSend (to_emails c) html_content) ;;;
     lift (smtp_deliver w tr html_content))
    isinstance_Exception
    (fun e => raise e).

End EmailReporter.

(** ** BackupsReporter *)

Module BackupsReporter.

(** The configuration file after [yaml.safe_load].  Each backend comes
    with what it does during the run. *)
Record Config : Type := mkConfig {
  webhooks : option (list string);
  entries_per_source : option Z;
  max_total_entries : option Z;
  borg_repositories : list (BorgRepository.Config * BorgRepository.Env);
  s3_buckets : list (S3Bucket.Config * S3Bucket.Env);
  email : option EmailReporter.Config
}.

(** An element of the local [borg_repos]: the position of the repository
    in the configuration, what it does, and the instance. *)
Definition mounted : Type := nat * BorgRepository.Env * BorgRepository.t.

(** [str(e)]: the message of the exception; the class name stands for
    it. *)
Definition str_exn (e : exn) : string :=
  match e with
  | OSError => "OSError"
  | PermissionError => "PermissionError"
  | FileNotFoundError => "FileNotFoundError"
  | TimeoutExpired => "TimeoutExpired"
  | RequestException => "RequestException"
  | ClientError => "ClientError"
  | OverflowError => "OverflowError"
  | SMTPException => "SMTPException"
  | RuntimeError => "RuntimeError"
  end.

Section Run.
Variable w : World.

(** [if self.webhook_notifier: self.webhook_notifier.ping(...)] *)
Definition notify (c : Config) (status message : string) : ST trace unit :=
  match webhooks c with
  | Some hooks => WebhookNotifier.ping w hooks status message
  | None => ret tt
  end.

(** The loop over [borg_repositories], from the repository at position
    [idx] on, with the locals [entries] and [borg_repos]. *)
Fixpoint process_borg (limit_per_source : Z) (idx : nat)
    (repos : list (BorgRepository.Config * BorgRepository.Env))
    (entries : list BackupEntry) (borg_repos : list mounted)
    : ST trace (list BackupEntry * list mounted) :=
  match repos with
  | [] => ret (entries, borg_repos)
  | (repo_config, env) :: repos' =>
      m <- BorgRepository.mount idx env (BorgRepository.init repo_config) ;;
      let '(repo, ok) := m in
      if ok
      then process_borg limit_per_source (S idx) repos'
             (entries ++ BorgRepository.list_archives env repo limit_per_source)
             (borg_repos ++ [(idx, env, repo)])
      else process_borg limit_per_source (S idx) repos' entries borg_repos
  end.

(** The loop over [s3_buckets]. *)
Fixpoint process_s3 (limit_per_source : Z)
    (buckets : list (S3Bucket.Config * S3Bucket.Env))
    (entries : list BackupEntry) : list BackupEntry :=
  match buckets with
  | [] => entries
  | (bucket_config, env) :: buckets' =>
      process_s3 limit_per_source buckets'
        (entries ++ S3Bucket.list_objects env bucket_config limit_per_source)
  end.

(** The first part of the [try] block: from [entries = []] to
    [entries = entries[:max_entries]]. *)
Definition aggregate (c : Config) : ST trace (list BackupEntry * list mounted) :=
  let limit_per_source := get_default (entries_per_source c) 10 in
  r <- process_borg limit_per_source 0 (borg_repositories c) [] [] ;;
  let '(entries, borg_repos) := r in
  let entries := process_s3 limit_per_source (s3_buckets c) entries in
  let entries := sort_desc entries in
  let max_entries := get_default (max_total_entries c) 100 in
  ret (slice_to entries max_entries, borg_repos).

Definition unmount_all (borg_repos : list mounted) : ST trace unit :=
  for_each borg_repos (fun '(idx, env, repo) => BorgRepository.unmount idx env repo).

(** The whole [try] block. *)
Definition run_body (c : Config) : ST trace unit :=
  r <- aggregate c ;;
  let '(entries, borg_repos) := r in
  match email c with
  | Some email_config => EmailReporter.send_report w email_config entries
  | None => ret tt
  end ;;;
  unmount_all borg_repos ;;;
  notify c "success"
    ("Backups report generated successfully with "
       ++ PyFmt.str_int (Z.of_nat (List.length entries)) ++ " entries").

Definition run (c : Config) : ST trace unit :=
  notify c "start" "Backups report generation started" ;;;
  try_except (run_body c)
    isinstance_Exception
    (fun e =>
       notify c "fail" ("Backups report generation failed: " ++ str_exn e) ;;;
       raise e).

End Run.

(** How often [unmount] was called on the repository at position [idx]. *)
Definition unmount_calls (idx : nat) (tr : trace) : nat :=
  List.length (filter (fun ev => match ev with
                                 | BorgUnmount i => Nat.eqb i idx
                                 | _ => false
                                 end) tr).

End BackupsReporter.

(** * Vocabulary of the statements *)

(** The entries that carry the timestamp [t]. *)
Definition has_timestamp (t : datetime) (e : BackupEntry) : bool :=
  timestamp e =? t.

(** [a] occurs before [b] in [l]. *)
Definition precedes (a b : BackupEntry) (l : list BackupEntry) : Prop :=
  exists l1 l2 l3, l = l1 ++ a :: l2 ++ b :: l3.

Module Listing.

(** Whether [mount] succeeds: the attachment point is created and
    [borg mount] exits with status 0 in time. *)
Definition attaches (env : BorgRepository.Env) : bool :=
  match BorgRepository.mkdtemp env, BorgRepository.mount_run env with
  | Ret _, Ret (returncode, _) => returncode =? 0
  | _, _ => false
  end.

(** The instance after [mount]. *)
Definition after_mount (c : BorgRepository.Config) (env : BorgRepository.Env)
    : BorgRepository.t :=
  match BorgRepository.mkdtemp env with
  | Ret mp => BorgRepository.mkRepo c (Some mp)
  | Raise _ => BorgRepository.init c
  end.

(** What one repository hands to the merge. *)
Definition of_borg (limit : Z) (b : BorgRepository.Config * BorgRepository.Env)
    : list BackupEntry :=
  if attaches (snd b)
  then BorgRepository.list_archives (snd b) (after_mount (fst b) (snd b)) limit
  else [].

(** What one bucket hands to the merge. *)
Definition of_s3 (limit : Z) (b : S3Bucket.Config * S3Bucket.Env)
    : list BackupEntry :=
  S3Bucket.list_objects (snd b) (fst b) limit.

(** The concatenation of the per-source listings, in the order in which
    [run] extends [entries]. *)
Definition concatenation (c : BackupsReporter.Config) : list BackupEntry :=
  let limit := get_default (BackupsReporter.entries_per_source c) 10 in
  flat_map (of_borg limit) (BackupsReporter.borg_repositories c)
  ++ flat_map (of_s3 limit) (BackupsReporter.s3_buckets c).

End Listing.

(** ** Failures of one backend *)

Module Failure.

(** The attach fails: the attachment point cannot be created, or
    [borg mount] runs into its timeout or raises, or it exits with a
    status other than 0. *)
Definition attach (env : BorgRepository.Env) : Prop :=
  (exists e, BorgRepository.mkdtemp env = Raise e)
  \/ (exists e, BorgRepository.mount_run env = Raise e)
  \/ (exists returncode stderr,
        BorgRepository.mount_run env = Ret (returncode, stderr) /\ returncode <> 0).

(** An item on which the body of the loop of [list_archives] raises. *)
Definition broken_item (item : BorgRepository.dir_item) : Prop :=
  (exists e, BorgRepository.is_dir item = Raise e)
  \/ (BorgRepository.is_dir item = Ret true
      /\ exists e, BorgRepository.stat_mtime item = Raise e).

(** The listing of an attached repository fails: the directory iterator
    raises, or looking at one of the items does. *)
Definition archive_listing (env : BorgRepository.Env) : Prop :=
  (exists e, BorgRepository.iterdir_error env = Some e)
  \/ Exists broken_item (BorgRepository.iterdir_items env).

(** The listing of a bucket fails. *)
Definition object_listing (env : S3Bucket.Env) : Prop :=
  exists e, S3Bucket.paginate_error env = Some e.

End Failure.

(** The configuration with other repositories, or other buckets. *)
Definition with_borg_repositories (c : BackupsReporter.Config)
    (repos : list (BorgRepository.Config * BorgRepository.Env)) : BackupsReporter.Config :=
  BackupsReporter.mkConfig (BackupsReporter.webhooks c)
    (BackupsReporter.entries_per_source c) (BackupsReporter.max_total_entries c)
    repos (BackupsReporter.s3_buckets c) (BackupsReporter.email c).

Definition with_s3_buckets (c : BackupsReporter.Config)
    (buckets : list (S3Bucket.Config * S3Bucket.Env)) : BackupsReporter.Config :=
  BackupsReporter.mkConfig (BackupsReporter.webhooks c)
    (BackupsReporter.entries_per_source c) (BackupsReporter.max_total_entries c)
    (BackupsReporter.borg_repositories c) buckets (BackupsReporter.email c).

(** ** Notifications *)

(** The addresses of the POST requests recorded in a trace, in order. *)
Definition posted_urls (tr : trace) : list string :=
  flat_map (fun ev => match ev with HttpPost url _ => [url] | _ => [] end) tr.

(** Every failure of a POST is a transport failure: an exception of the
    HTTP library, which are all of class [RequestException]. *)
Definition transport_failures_only (w : World) : Prop :=
  forall tr url body e,
    http_post w tr url body = Raise e -> isinstance_RequestException e = true.

(** ** File trees *)

Module Tree.

(** The sum of a list of sizes. *)
Definition sum (sizes : list Z) : Z := fold_right Z.add 0 sizes.

(** The sizes of the accessible files of a tree: the files that answer
    [getsize], in the directories that can be scanned. *)
Fixpoint accessible_sizes (n : BorgRepository.fs_node) : list Z :=
  match n with
  | BorgRepository.File _ (Ret file_size) => [file_size]
  | BorgRepository.File _ (Raise _) => []
  | BorgRepository.Dir _ true children => flat_map accessible_sizes children
  | BorgRepository.Dir _ false _ => []
  end.

(** The files that cannot be read fail with an access error, an
    exception of class [OSError] (permission denied, file deleted in the
    meantime). *)
Fixpoint access_errors_only (n : BorgRepository.fs_node) : bool :=
  match n with
  | BorgRepository.File _ (Ret _) => true
  | BorgRepository.File _ (Raise e) => isinstance_OSError e
  | BorgRepository.Dir _ true children => forallb access_errors_only children
  | BorgRepository.Dir _ false _ => true
  end.

(** What one file and one step of the walk add to the total. *)
Definition file_sizes (files : list (string * outcome Z)) : list Z :=
  flat_map (fun f => match snd f with Ret n => [n] | Raise _ => [] end) files.

Definition walk_sizes (steps : list BorgRepository.walk_step) : list Z :=
  flat_map (fun step => file_sizes (snd step)) steps.

Definition files_ok (files : list (string * outcome Z)) : Prop :=
  Forall (fun f => match snd f with
                   | Ret _ => True
                   | Raise e => isinstance_OSError e = true
                   end) files.

End Tree.

(** ** Units of size *)

Module SizeUnit.

Definition names : list string := ["B"; "KB"; "MB"; "GB"; "TB"; "PB"]%string.

(** The unit of a byte count: one step up at every power of 1024, up to
    the sixth unit. *)
Definition scale (n : Z) : nat :=
  if n <? 1024 then 0
  else if n <? 1024 ^ 2 then 1
  else if n <? 1024 ^ 3 then 2
  else if n <? 1024 ^ 4 then 3
  else if n <? 1024 ^ 5 then 4
  else 5.

Definition name (k : nat) : string := nth k names EmptyString.

End SizeUnit.

(** ** Attach and detach *)

Module Lifecycle.

(** The elements that [run] appends to [borg_repos] for the repositories
    [repos], the first of which has position [idx]. *)
Fixpoint mounted_from (idx : nat)
    (repos : list (BorgRepository.Config * BorgRepository.Env))
    : list BackupsReporter.mounted :=
  match repos with
  | [] => []
  | (c, env) :: repos' =>
      (if Listing.attaches env then [(idx, env, Listing.after_mount c env)] else [])
      ++ mounted_from (S idx) repos'
  end.

(** Whether the repository at position [idx] of the configuration
    attaches. *)
Definition attached_at (c : BackupsReporter.Config) (idx : nat) : bool :=
  match nth_error (BackupsReporter.borg_repositories c) idx with
  | Some (_, env) => Listing.attaches env
  | None => false
  end.

(** How many elements of [borg_repos] stand for position [idx]. *)
Definition occurrences (idx : nat) (borg_repos : list BackupsReporter.mounted) : nat :=
  List.length (filter (fun m => Nat.eqb (fst (fst m)) idx) borg_repos).

(** A computation that never calls [unmount] on position [idx]. *)
Definition no_unmount {A} (idx : nat) (m : ST trace A) : Prop :=
  forall tr,
    BackupsReporter.unmount_calls idx (snd (m tr)) = BackupsReporter.unmount_calls idx tr.

End Lifecycle.

(** * Sample inputs *)

Module Samples.
Local Open Scope string_scope.

(** 2024-01-01T00:00:00Z *)
Definition new_year : datetime := 1704067200000000.

Definition second : Z := 1000000.

(** Every endpoint answers 200, the clock stands at [new_year], the SMTP
    server accepts the message. *)
Definition calm : World :=
  mkWorld (fun _ _ _ => Ret 200) (fun _ => new_year) (fun _ _ => Ret tt).

(** As [calm], but the SMTP server refuses the message. *)
Definition smtp_down : World :=
  mkWorld (fun _ _ _ => Ret 200) (fun _ => new_year) (fun _ _ => Raise SMTPException).

(** As [calm], but the endpoint [https://a.example/hook] cannot be
    reached. *)
Definition a_unreachable : World :=
  mkWorld (fun _ url _ =>
             if String.eqb url "https://a.example/hook"
             then Raise RequestException else Ret 200)
          (fun _ => new_year) (fun _ _ => Ret tt).

Definition nas : BorgRepository.Config :=
  BorgRepository.mkConfig "nas" "/srv/borg/nas" None true false None.

Definition monday : BorgRepository.dir_item :=
  BorgRepository.mkItem "monday" (Ret true) (Ret new_year) true
    [BorgRepository.File "a.txt" (Ret 100);
     BorgRepository.File "b.txt" (Raise PermissionError);
     BorgRepository.Dir "etc" true
       [BorgRepository.File "passwd" (Ret 20);
        BorgRepository.File "gone" (Raise FileNotFoundError)];
     BorgRepository.File "c.txt" (Ret 3)].

Definition tuesday : BorgRepository.dir_item :=
  BorgRepository.mkItem "tuesday" (Ret true) (Ret (new_year + 86400 * second)) true
    [BorgRepository.File "a.txt" (Ret 2048)].

(** A repository that mounts and lists two archives. *)
Definition nas_up : BorgRepository.Env :=
  BorgRepository.mkEnv (Ret "/tmp/borg_nas_k3") (Ret (0, EmptyString))
    [monday; tuesday] None true (Ret tt) (Ret tt).

(** [borg mount] does not finish in time. *)
Definition nas_timeout : BorgRepository.Env :=
  BorgRepository.mkEnv (Ret "/tmp/borg_nas_k4") (Raise TimeoutExpired)
    [monday; tuesday] None true (Ret tt) (Ret tt).

(** The repository mounts; the listing breaks after the first archive. *)
Definition nas_unlistable : BorgRepository.Env :=
  BorgRepository.mkEnv (Ret "/tmp/borg_nas_k5") (Ret (0, EmptyString))
    [monday] (Some OSError) true (Ret tt) (Ret tt).

Definition offsite : S3Bucket.Config :=
  S3Bucket.mkConfig "offsite" "backups" EmptyString "us-east-1" None None None.

(** One object last modified at [new_year]. *)
Definition offsite_one : S3Bucket.Env :=
  S3Bucket.mkEnv [Some [S3Bucket.mkObject "db.dump" new_year 1048576]] None.

(** Fifteen objects on two pages. *)
Definition offsite_fifteen : S3Bucket.Env :=
  S3Bucket.mkEnv
    [Some (map (fun i => S3Bucket.mkObject "dump" (new_year + i * second) (i * 1024))
             [3; 1; 4; 1; 5; 9; 2; 6]);
     None;
     Some (map (fun i => S3Bucket.mkObject "dump" (new_year + i * second) (i * 1024))
             [5; 3; 5; 8; 9; 7; 9])]
    None.

(** The credentials are refused after the first page. *)
Definition offsite_denied : S3Bucket.Env :=
  S3Bucket.mkEnv [Some [S3Bucket.mkObject "db.dump" new_year 1048576]] (Some ClientError).

Definition mail : EmailReporter.Config :=
  EmailReporter.mkConfig "smtp.example" 587 None None
    "backups@example" ["ops@example"%string] true.

(** One repository, one bucket, a report by mail, two webhooks. *)
Definition config : BackupsReporter.Config :=
  BackupsReporter.mkConfig
    (Some ["https://a.example/hook"; "https://hc-ping.com/uuid/start"]%string)
    None None [(nas, nas_up)] [(offsite, offsite_one)] (Some mail).

(** A first repository that cannot be attached, a second that can only be
    attached, a third that works; a first bucket that refuses the
    credentials, a second that works. *)
Definition config_partly_failing : BackupsReporter.Config :=
  BackupsReporter.mkConfig None None None
    [(nas, nas_timeout); (nas, nas_unlistable); (nas, nas_up)]
    [(offsite, offsite_denied); (offsite, offsite_one)] (Some mail).

End Samples.

(** * Further vocabulary *)

(** ** What the adapters are given *)

Module Inventory.

(** The objects of all the pages of a bucket, in the order in which the
    paginator yields them. *)
Definition all_objects (env : S3Bucket.Env) : list S3Bucket.s3_object :=
  flat_map (fun page => match page with Some contents => contents | None => [] end)
    (S3Bucket.pages env).

(** [b] is not newer than any entry of [kept]: every entry left out is at
    most as new as every entry kept. *)
Definition newest_kept (kept dropped : list BackupEntry) : Prop :=
  forall a b, In a kept -> In b dropped -> timestamp b <= timestamp a.

(** The number of configured backends. *)
Definition backends (c : BackupsReporter.Config) : nat :=
  (List.length (BackupsReporter.borg_repositories c)
   + List.length (BackupsReporter.s3_buckets c))%nat.

End Inventory.

(** ** What the entries of an adapter stand for *)

Module Wellformed.

(** [e] is the entry of a child directory of the mount point of [r]: it
    carries the name and the modification time of the directory, the
    source and type of an archive, and as size the result of the scan of
    that directory, or none when sizes are not computed. *)
Definition archive_entry_of (env : BorgRepository.Env) (r : BorgRepository.t)
    (e : BackupEntry) : Prop :=
  source e = ("borg:" ++ BorgRepository.name (BorgRepository.config r))%string
  /\ type e = "borg_archive"%string
  /\ exists item mp,
       In item (BorgRepository.iterdir_items env)
       /\ BorgRepository.mount_point r = Some mp
       /\ BorgRepository.is_dir item = Ret true
       /\ BorgRepository.stat_mtime item = Ret (timestamp e)
       /\ name e = BorgRepository.item_name item
       /\ if BorgRepository.calculate_sizes (BorgRepository.config r)
          then exists n,
                 size e = Some n
                 /\ BorgRepository._calculate_directory_size
                      (mp ++ "/" ++ BorgRepository.item_name item)
                      (BorgRepository.scannable item) (BorgRepository.contents item)
                    = Ret n
          else size e = None.

(** [e] is the entry of an object of the bucket. *)
Definition object_entry_of (env : S3Bucket.Env) (c : S3Bucket.Config)
    (e : BackupEntry) : Prop :=
  exists obj, In obj (Inventory.all_objects env) /\ e = S3Bucket.object_entry c obj.

End Wellformed.

(** ** Sizes that are byte counts *)

Module Bytes.

(** Every file of the tree that answers [getsize] answers with a size that
    is not negative. *)
Fixpoint sizes_nonneg (n : BorgRepository.fs_node) : bool :=
  match n with
  | BorgRepository.File _ (Ret file_size) => 0 <=? file_size
  | BorgRepository.File _ (Raise _) => true
  | BorgRepository.Dir _ true children => forallb sizes_nonneg children
  | BorgRepository.Dir _ false _ => true
  end.

Definition files_nonneg (files : list (string * outcome Z)) : Prop :=
  Forall (fun f => match snd f with Ret n => 0 <= n | Raise _ => True end) files.

End Bytes.

(** ** Steps of a run *)

Module Step.

(** A computation that leaves what [obs] sees of the trace as it is. *)
Definition keeps {A T} (obs : trace -> T) (m : ST trace A) : Prop :=
  forall tr, obs (snd (m tr)) = obs tr.

(** The step [if 'email' in self.config: ... send_report(entries)]. *)
Definition deliver (w : World) (c : BackupsReporter.Config)
    (entries : list BackupEntry) : ST trace unit :=
  match BackupsReporter.email c with
  | Some email_config => EmailReporter.send_report w email_config entries
  | None => ret tt
  end.


(** The status of the notification that ends a run. *)
Definition final_status (o : outcome unit) : string :=
  match o with Ret _ => "success"%string | Raise _ => "fail"%string end.

End Step.

(** ** main *)

Module Main.

(** What [main] finds outside the run: whether a path exists, and what
    [BackupsReporter(config_file)] gives, the loaded configuration or the
    exception of [open], of [yaml.safe_load] or of [setup_logging]. *)
Record Env : Type := mkEnv {
  path_exists : string -> bool;
  construct : string -> outcome BackupsReporter.Config
}.

Definition default_config : string := "config.yaml".

Definition usage : list string :=
  ["Usage: backups_reporter.py [config_file]";
   "If no config file is specified, 'config.yaml' will be used."]%string.

(** [sys.argv[1] if len(sys.argv) == 2 else default_config] *)
Definition config_file (argv : list string) : string :=
  match argv with
  | [_; file] => file
  | _ => default_config
  end.

Definition not_found (file : string) : list string :=
  ("Config file not found: " ++ file)%string
  :: (if String.eqb file default_config
      then ["Create a config.yaml file or specify a different config file path."%string]
      else []).

(** [main]: the exit status of the process and the lines printed, with the
    trace of the run.  A [main] that returns ends the process with status
    0; [sys.exit(1)] ends it with status 1. *)
Definition main (w : World) (env : Env) (argv : list string) (tr : trace)
    : Z * list string * trace :=
  if (2 <? List.length argv)%nat then (1, usage, tr)
  else
    let file := config_file argv in
    if negb (path_exists env file) then (1, not_found file, tr)
    else
      match construct env file with
      | Raise _ => (1, [], tr)
      | Ret c =>
          match BackupsReporter.run w c tr with
          | (Ret _, tr') => (0, [], tr')
          | (Raise _, tr') => (1, [], tr')
          end
      end.

Definition exit_status (r : Z * list string * trace) : Z := fst (fst r).

Definition printed (r : Z * list string * trace) : list string := snd (fst r).

Definition final_trace (r : Z * list string * trace) : trace := snd r.

End Main.

(** ** The children of a mount point *)

Module Archive.

(** The children of the mount point that are directories. *)
Definition directories (env : BorgRepository.Env) : list BorgRepository.dir_item :=
  filter (fun item => match BorgRepository.is_dir item with
                      | Ret true => true
                      | _ => false
                      end) (BorgRepository.iterdir_items env).

(** An item that can be looked at: [is_dir] answers, and for a directory
    [stat] answers too. *)
Definition inspectable (item : BorgRepository.dir_item) : Prop :=
  BorgRepository.is_dir item = Ret false
  \/ (BorgRepository.is_dir item = Ret true
      /\ exists mtime, BorgRepository.stat_mtime item = Ret mtime).

End Archive.

(** * Inputs at the edge *)

Module Edge.


End Edge.

(** ** What a notification is to carry *)

Module Notify.

(** What a request carries apart from the time it is sent at: the text
    posted to a health check, or the status and the message of the JSON
    document posted to another webhook. *)
Inductive payload : Type :=
| Data (message : string)
| Json (status message : string).

Definition digest (ev : event) : list (string * payload) :=
  match ev with
  | HttpPost url (DataBody message) => [(url, Data message)]
  | HttpPost url (JsonBody status message _) => [(url, Json status message)]
  | _ => []
  end.

(** The requests recorded in a trace, in order: address and payload. *)
Definition sent (tr : trace) : list (string * payload) := flat_map digest tr.

(** A webhook is a health check when [healthchecks.io] occurs in it or it
    ends in [/start] or in [/fail]. *)
Definition health_check (webhook : string) : bool :=
  PyStr.contains "healthchecks.io" webhook
  || PyStr.endswith "/start" webhook
  || PyStr.endswith "/fail" webhook.

(** The address at which a health check is told of [status]. *)
Definition address (status webhook : string) : string :=
  if String.eqb status "start" then
    if PyStr.endswith "/start" webhook then webhook else (webhook ++ "/start")%string
  else if String.eqb status "fail" then
    if PyStr.endswith "/fail" webhook then webhook else (webhook ++ "/fail")%string
  else PyStr.replace "/fail" EmptyString (PyStr.replace "/start" EmptyString webhook).

(** The request that tells one webhook of [status] with [message]: the
    message as text at the address of the status for a health check, and
    status and message as JSON at the webhook itself otherwise. *)
Definition expected (status message webhook : string) : string * payload :=
  if health_check webhook
  then (address status webhook, Data message)
  else (webhook, Json status message).

Definition expected_all (c : BackupsReporter.Config) (status message : string)
    : list (string * payload) :=
  match BackupsReporter.webhooks c with
  | Some hooks => map (expected status message) hooks
  | None => []
  end.

(** The message that ends a run: the number of entries reported, or the
    exception. *)
Definition final_message (c : BackupsReporter.Config) (o : outcome unit) : string :=
  match o with
  | Ret _ =>
      ("Backups report generated successfully with "
         ++ PyFmt.str_int
              (Z.of_nat
                 (List.length
                    (slice_to (sort_desc (Listing.concatenation c))
                       (get_default (BackupsReporter.max_total_entries c) 100))))
         ++ " entries")%string
  | Raise e => ("Backups report generation failed: " ++ BackupsReporter.str_exn e)%string
  end.

End Notify.

(** * Properties *)

(** ** The sort and the slice *)

Section SortFacts.

Lemma insert_desc_perm x l : Permutation (x :: l) (insert_desc x l).
Proof.
  induction l as [|y l IH]; simpl.
  - apply Permutation_refl.
  - destruct (timestamp y <=? timestamp x).
    + apply Permutation_refl.
    + eapply perm_trans; [apply perm_swap|].
      now apply perm_skip.
Qed.

Lemma sort_desc_perm l : Permutation l (sort_desc l).
Proof.
  induction l as [|x l IH]; simpl.
  - constructor.
  - eapply perm_trans; [apply perm_skip, IH|apply insert_desc_perm].
Qed.

Lemma sort_desc_length l : List.length (sort_desc l) = List.length l.
Proof. symmetry. apply Permutation_length, sort_desc_perm. Qed.

Lemma insert_desc_sorted x l : sorted_desc l -> sorted_desc (insert_desc x l).
Proof.
  unfold sorted_desc.
  induction l as [|y l IH]; intros Hs; simpl.
  - constructor; constructor.
  - destruct (timestamp y <=? timestamp x) eqn:E.
    + apply Z.leb_le in E.
      constructor; [exact Hs|].
      constructor; [exact E|].
      apply StronglySorted_inv in Hs. destruct Hs as [_ Hall].
      eapply Forall_impl; [|exact Hall]. simpl. intros b Hb. lia.
    + apply Z.leb_gt in E.
      apply StronglySorted_inv in Hs. destruct Hs as [Hs Hall].
      constructor; [now apply IH|].
      eapply Permutation_Forall; [apply insert_desc_perm|].
      constructor; [lia|exact Hall].
Qed.

Lemma sort_desc_sorted l : sorted_desc (sort_desc l).
Proof.
  induction l as [|x l IH]; simpl.
  - constructor.
  - now apply insert_desc_sorted.
Qed.

(** Stability, entry by entry: among the elements that are not older than
    [x], [x] comes first. *)
Lemma insert_desc_filter t x l :
  sorted_desc l ->
  filter (has_timestamp t) (insert_desc x l) = filter (has_timestamp t) (x :: l).
Proof.
  unfold sorted_desc, has_timestamp.
  induction l as [|y l IH]; intros Hs; simpl; [reflexivity|].
  destruct (timestamp y <=? timestamp x) eqn:E; [reflexivity|].
  apply Z.leb_gt in E.
  apply StronglySorted_inv in Hs. destruct Hs as [Hs Hall].
  simpl. rewrite (IH Hs). simpl.
  destruct (timestamp x =? t) eqn:Ex, (timestamp y =? t) eqn:Ey; try reflexivity.
  apply Z.eqb_eq in Ex, Ey. lia.
Qed.

Lemma sort_desc_stable t l :
  filter (has_timestamp t) (sort_desc l) = filter (has_timestamp t) l.
Proof.
  induction l as [|x l IH]; simpl; [reflexivity|].
  rewrite insert_desc_filter by apply sort_desc_sorted.
  simpl. now rewrite IH.
Qed.

Lemma has_timestamp_refl e : has_timestamp (timestamp e) e = true.
Proof. apply Z.eqb_refl. Qed.

(** A descending list is determined by what it holds at each timestamp. *)
Lemma sorted_desc_determined l1 : forall l2,
  sorted_desc l1 -> sorted_desc l2 ->
  (forall t, filter (has_timestamp t) l1 = filter (has_timestamp t) l2) ->
  l1 = l2.
Proof.
  assert (Hhead : forall x r y r',
             sorted_desc (x :: r) ->
             filter (has_timestamp (timestamp y)) (x :: r)
             = filter (has_timestamp (timestamp y)) (y :: r') ->
             timestamp y <= timestamp x).
  { intros x r y r' Hs H.
    assert (Hin : In y (filter (has_timestamp (timestamp y)) (x :: r))).
    { rewrite H. cbn [filter]. rewrite has_timestamp_refl. now left. }
    apply filter_In in Hin. destruct Hin as [[->|Hin] _]; [lia|].
    apply StronglySorted_inv in Hs. destruct Hs as [_ Hall].
    rewrite Forall_forall in Hall. now apply Hall. }
  unfold sorted_desc in *.
  induction l1 as [|x r1 IH]; intros [|y r2] H1 H2 H.
  - reflexivity.
  - specialize (H (timestamp y)). cbn [filter] in H.
    rewrite has_timestamp_refl in H. discriminate.
  - specialize (H (timestamp x)). cbn [filter] in H.
    rewrite has_timestamp_refl in H. discriminate.
  - assert (Hxy : timestamp x = timestamp y).
    { pose proof (Hhead x r1 y r2 H1 (H (timestamp y))).
      pose proof (Hhead y r2 x r1 H2 (eq_sym (H (timestamp x)))). lia. }
    assert (x = y).
    { specialize (H (timestamp x)). cbn [filter] in H.
      rewrite has_timestamp_refl in H. rewrite Hxy in H.
      rewrite has_timestamp_refl in H. now injection H. }
    subst y. f_equal.
    apply StronglySorted_inv in H1, H2.
    apply IH; [tauto|tauto|].
    intros t. specialize (H t). cbn [filter] in H.
    destruct (has_timestamp t x); [now injection H|exact H].
Qed.

(** [sort_desc] is the stable descending sort: any list that is descending
    and holds, at each timestamp, the entries of [l] in their order, is
    [sort_desc l]. *)
Lemma sort_desc_unique l l' :
  sorted_desc l' ->
  (forall t, filter (has_timestamp t) l' = filter (has_timestamp t) l) ->
  l' = sort_desc l.
Proof.
  intros Hs H. apply sorted_desc_determined; [exact Hs|apply sort_desc_sorted|].
  intros t. now rewrite sort_desc_stable.
Qed.


Lemma slice_to_firstn {A} (l : list A) stop :
  exists n, slice_to l stop = firstn n l.
Proof. unfold slice_to. destruct (stop <? 0); eauto. Qed.


Lemma slice_to_length {A} (l : list A) stop :
  0 <= stop -> Z.of_nat (List.length (slice_to l stop)) <= stop.
Proof.
  intros H. unfold slice_to.
  destruct (stop <? 0) eqn:E; [apply Z.ltb_lt in E; lia|].
  rewrite length_firstn. lia.
Qed.

Lemma slice_to_all {A} (l : list A) stop :
  Z.of_nat (List.length l) <= stop -> slice_to l stop = l.
Proof.
  intros H. unfold slice_to.
  destruct (stop <? 0) eqn:E; [apply Z.ltb_lt in E; lia|].
  apply firstn_all2. lia.
Qed.

Lemma slice_to_nonneg {A} (l : list A) stop :
  0 <= stop -> slice_to l stop = firstn (Z.to_nat stop) l.
Proof.
  intros H. unfold slice_to.
  destruct (stop <? 0) eqn:E; [apply Z.ltb_lt in E; lia|reflexivity].
Qed.

End SortFacts.

(** ** The aggregation step of [run] *)

Section AggregateFacts.

Lemma mount_result idx c env tr :
  exists tr',
    BorgRepository.mount idx env (BorgRepository.init c) tr
    = (Ret (Listing.after_mount c env, Listing.attaches env), tr').
Proof.
  unfold BorgRepository.mount, Listing.after_mount, Listing.attaches.
  destruct (BorgRepository.mkdtemp env) as [mp|e]; [|eexists; reflexivity].
  unfold bind, emit, modify, ret; simpl.
  destruct (BorgRepository.mount_run env) as [[rc err]|e]; eexists; reflexivity.
Qed.

Lemma process_borg_result limit repos : forall idx entries borg_repos tr,
  exists tr',
    BackupsReporter.process_borg limit idx repos entries borg_repos tr
    = (Ret (entries ++ flat_map (Listing.of_borg limit) repos,
            borg_repos ++ Lifecycle.mounted_from idx repos), tr').
Proof.
  induction repos as [|[c env] repos IH]; intros idx entries borg_repos tr; simpl.
  - rewrite !app_nil_r. eexists. reflexivity.
  - unfold bind at 1.
    destruct (mount_result idx c env tr) as [tr1 ->].
    unfold Listing.of_borg at 1; simpl.
    destruct (Listing.attaches env).
    + edestruct IH as (tr' & ->). rewrite <- !app_assoc. eexists. reflexivity.
    + edestruct IH as (tr' & ->). eexists. reflexivity.
Qed.

Lemma process_s3_result limit buckets : forall entries,
  BackupsReporter.process_s3 limit buckets entries
  = entries ++ flat_map (Listing.of_s3 limit) buckets.
Proof.
  induction buckets as [|[c env] buckets IH]; intros entries; simpl.
  - now rewrite app_nil_r.
  - rewrite IH, <- app_assoc. reflexivity.
Qed.

(** The aggregation never raises; its entries are the stable descending
    sort of the concatenation, cut at [max_total_entries]. *)
Lemma aggregate_result c tr :
  exists mounted tr',
    BackupsReporter.aggregate c tr
    = (Ret (slice_to (sort_desc (Listing.concatenation c))
              (get_default (BackupsReporter.max_total_entries c) 100),
            mounted), tr')
    /\ mounted = Lifecycle.mounted_from 0 (BackupsReporter.borg_repositories c).
Proof.
  unfold BackupsReporter.aggregate, Listing.concatenation.
  unfold bind.
  edestruct process_borg_result as (tr' & ->).
  rewrite process_s3_result. simpl.
  eexists _, _. split; reflexivity.
Qed.

End AggregateFacts.

(** ** Loops and invariants *)

Section LoopFacts.
Context {S X : Type}.

(** A property of the state that every iteration keeps, whether it
    returns or raises, holds when the loop is left. *)
Lemma for_each_invariant (I : S -> Prop) (body : X -> ST S unit) :
  (forall x s, I s -> I (snd (body x s))) ->
  forall xs s, I s -> I (snd (for_each xs body s)).
Proof.
  intros Hbody xs. induction xs as [|x xs IH]; intros s Hs; simpl.
  - exact Hs.
  - unfold bind. specialize (Hbody x s Hs).
    destruct (body x s) as [[[]|e] s']; simpl in *.
    + now apply IH.
    + exact Hbody.
Qed.

(** A loop whose iterations all return normally returns normally. *)
Lemma for_each_returns (body : X -> ST S unit) :
  (forall x s, fst (body x s) = Ret tt) ->
  forall xs s, fst (for_each xs body s) = Ret tt.
Proof.
  intros Hbody xs. induction xs as [|x xs IH]; intros s; simpl.
  - reflexivity.
  - unfold bind. specialize (Hbody x s).
    destruct (body x s) as [[[]|e] s']; simpl in *.
    + apply IH.
    + discriminate.
Qed.

End LoopFacts.

(** ** The listings of the adapters *)

Section ListingFacts.

Lemma In_slice_to {A} (x : A) l stop : In x (slice_to l stop) -> In x l.
Proof.
  destruct (slice_to_firstn l stop) as [n ->].
  intros H. rewrite <- (firstn_skipn n l). apply in_or_app. now left.
Qed.

Lemma Forall_slice_sort (P : BackupEntry -> Prop) l stop :
  Forall P l -> Forall P (slice_to (sort_desc l) stop).
Proof.
  rewrite !Forall_forall. intros H x Hx.
  apply In_slice_to in Hx.
  apply H. eapply Permutation_in; [|exact Hx].
  apply Permutation_sym, sort_desc_perm.
Qed.

Lemma list_archives_cases env r limit :
  BorgRepository.list_archives env r limit = []
  \/ exists entries,
       BorgRepository.list_archives env r limit = slice_to (sort_desc entries) limit
       /\ Forall (fun e => type e = "borg_archive"%string) entries.
Proof.
  unfold BorgRepository.list_archives.
  destruct (BorgRepository.mount_point r) as [mp|]; [|now left].
  destruct (String.eqb mp EmptyString); [now left|].
  destruct (BorgRepository.collect_archives mp env (BorgRepository.config r) [])
    as [[[]|e] entries] eqn:E; [|now left].
  right. exists entries. split; [reflexivity|].
  change entries with
    (snd (Ret tt, entries) : list BackupEntry).
  rewrite <- E. unfold BorgRepository.collect_archives, bind.
  match goal with
  | |- Forall _ (snd (match ?m with _ => _ end)) =>
      assert (H : Forall (fun e => type e = "borg_archive"%string) (snd m));
        [|destruct m as [[[]|e0] s]; simpl in *;
          [destruct (BorgRepository.iterdir_error env)|]; exact H]
  end.
  apply for_each_invariant with (I := Forall (fun e => type e = "borg_archive"%string));
    [|constructor].
  intros item s Hs. unfold BorgRepository.append_archive, bind, lift.
  destruct (BorgRepository.archive_entry mp (BorgRepository.config r) item)
    as [[entry|]|e0] eqn:Ea; simpl; try exact Hs.
  apply Forall_app; split; [exact Hs|]. constructor; [|constructor].
  unfold BorgRepository.archive_entry, obind in Ea.
  destruct (BorgRepository.is_dir item) as [[]|]; try discriminate.
  destruct (BorgRepository.stat_mtime item); try discriminate.
  destruct (BorgRepository.calculate_sizes _);
    [destruct (BorgRepository._calculate_directory_size _ _)|];
    try discriminate; now inversion Ea.
Qed.

Lemma list_objects_cases env c limit :
  S3Bucket.list_objects env c limit = []
  \/ exists entries,
       S3Bucket.list_objects env c limit = slice_to (sort_desc entries) limit
       /\ Forall (fun e => type e = "s3_object"%string) entries.
Proof.
  unfold S3Bucket.list_objects.
  destruct (S3Bucket.collect_objects env c []) as [[[]|e] entries] eqn:E; [|now left].
  right. exists entries. split; [reflexivity|].
  change entries with (snd (Ret tt, entries) : list BackupEntry).
  rewrite <- E. unfold S3Bucket.collect_objects, bind.
  match goal with
  | |- Forall _ (snd (match ?m with _ => _ end)) =>
      assert (H : Forall (fun e => type e = "s3_object"%string) (snd m));
        [|destruct m as [[[]|e0] s]; simpl in *;
          [destruct (S3Bucket.paginate_error env)|]; exact H]
  end.
  apply for_each_invariant with (I := Forall (fun e => type e = "s3_object"%string));
    [|constructor].
  intros [contents|] s Hs; simpl; [|exact Hs].
  apply for_each_invariant with (I := Forall (fun e => type e = "s3_object"%string));
    [|exact Hs].
  intros obj s' Hs'. simpl.
  apply Forall_app; split; [exact Hs'|]. constructor; [reflexivity|constructor].
Qed.



Lemma list_archives_length env r limit :
  0 <= limit ->
  Z.of_nat (List.length (BorgRepository.list_archives env r limit)) <= limit.
Proof.
  intros H. destruct (list_archives_cases env r limit) as [->|(entries & -> & _)].
  - simpl. lia.
  - now apply slice_to_length.
Qed.

Lemma list_objects_length env c limit :
  0 <= limit ->
  Z.of_nat (List.length (S3Bucket.list_objects env c limit)) <= limit.
Proof.
  intros H. destruct (list_objects_cases env c limit) as [->|(entries & -> & _)].
  - simpl. lia.
  - now apply slice_to_length.
Qed.

End ListingFacts.

(** ** Claims on the listings and on the aggregated sequence *)




(** The fifteen objects of the sample bucket with [limit = 10]: exactly
    ten entries come back, the newest first. *)
Example list_objects_fifteen :
  map timestamp (S3Bucket.list_objects Samples.offsite_fifteen Samples.offsite 10)
  = map (fun i => Samples.new_year + i * Samples.second) [9; 9; 9; 8; 7; 6; 5; 5; 5; 4].
Proof. reflexivity. Qed.

(** A negative limit is an index from the end: two of fifteen entries are
    dropped. *)
Example list_objects_negative_limit :
  List.length (S3Bucket.list_objects Samples.offsite_fifteen Samples.offsite (-2)) = 13%nat.
Proof. reflexivity. Qed.




(** ** Ties *)

Section TieFacts.

Lemma filter_firstn {A} (p : A -> bool) n l :
  exists k, filter p (firstn n l) = firstn k (filter p l).
Proof.
  revert n. induction l as [|x l IH]; intros [|n]; simpl;
    try (exists O; reflexivity).
  destruct (IH n) as [k Hk]. rewrite Hk.
  destruct (p x); [exists (S k)|exists k]; reflexivity.
Qed.

(** An element that survives a filter sits in the filtered list where it
    sat in the list. *)
Lemma filter_split {A} (p : A -> bool) l : forall f1 a f2,
  filter p l = f1 ++ a :: f2 ->
  exists l1 l2, l = l1 ++ a :: l2 /\ filter p l1 = f1 /\ filter p l2 = f2.
Proof.
  induction l as [|x l IH]; intros f1 a f2 H; simpl in H.
  - destruct f1; discriminate.
  - destruct (p x) eqn:Px.
    + destruct f1 as [|y f1]; simpl in H; inversion H; subst.
      * exists [], l. simpl. auto.
      * destruct (IH _ _ _ H2) as (l1 & l2 & -> & <- & <-).
        exists (y :: l1), l2. simpl. rewrite Px. auto.
    + destruct (IH _ _ _ H) as (l1 & l2 & -> & <- & <-).
      exists (x :: l1), l2. simpl. rewrite Px. auto.
Qed.

(** The entries of one timestamp in the sorted and cut list are an
    initial part of the entries of that timestamp in the list given. *)
Lemma ties_prefix t l stop :
  exists k,
    filter (has_timestamp t) (slice_to (sort_desc l) stop)
    = firstn k (filter (has_timestamp t) l).
Proof.
  destruct (slice_to_firstn (sort_desc l) stop) as [n ->].
  destruct (filter_firstn (has_timestamp t) n (sort_desc l)) as [k ->].
  exists k. now rewrite sort_desc_stable.
Qed.

Lemma precedes_stable a b l stop :
  timestamp a = timestamp b ->
  precedes a b (slice_to (sort_desc l) stop) ->
  precedes a b l.
Proof.
  intros Hab (o1 & o2 & o3 & Ho).
  destruct (ties_prefix (timestamp a) l stop) as [k Hk].
  rewrite Ho in Hk.
  rewrite filter_app in Hk. simpl in Hk.
  unfold has_timestamp at 2 in Hk. rewrite Z.eqb_refl in Hk.
  rewrite filter_app in Hk. simpl in Hk.
  unfold has_timestamp at 3 in Hk. rewrite <- Hab, Z.eqb_refl in Hk.
  pose proof (firstn_skipn k (filter (has_timestamp (timestamp a)) l)) as Hsplit.
  rewrite <- Hk in Hsplit.
  rewrite <- app_assoc in Hsplit. simpl in Hsplit.
  rewrite <- app_assoc in Hsplit. simpl in Hsplit.
  symmetry in Hsplit.
  destruct (filter_split _ _ _ _ _ Hsplit) as (l1 & l2 & -> & _ & H2).
  destruct (filter_split _ _ _ _ _ H2) as (l3 & l4 & -> & _ & _).
  exists l1, l3, l4. reflexivity.
Qed.

(** In a list made of archive entries followed by object entries no
    object entry comes before an archive entry. *)
Lemma archives_before_objects a b borg s3 :
  Forall (fun e => type e = "borg_archive"%string) borg ->
  Forall (fun e => type e = "s3_object"%string) s3 ->
  precedes a b (borg ++ s3) ->
  type a = "s3_object"%string ->
  type b = "borg_archive"%string ->
  False.
Proof.
  intros Hborg Hs3 (l1 & l2 & l3 & H) Ha Hb.
  rewrite Forall_forall in Hborg, Hs3.
  assert (Hin : In b s3 \/ In a borg).
  { symmetry in H. apply app_eq_app in H.
    destruct H as [l' [[_ ->]|[-> H]]].
    - left. apply in_or_app. right.
      apply in_cons, in_or_app. right. now left.
    - destruct l' as [|x l']; simpl in H.
      + left. rewrite <- H. apply in_cons, in_or_app. right. now left.
      + right. inversion H; subst. apply in_or_app. right. now left. }
  destruct Hin as [Hin|Hin].
  - apply Hs3 in Hin. rewrite Hb in Hin. discriminate.
  - apply Hborg in Hin. rewrite Ha in Hin. discriminate.
Qed.

Lemma Forall_flat_map {A B} (P : B -> Prop) (f : A -> list B) l :
  (forall x, Forall P (f x)) -> Forall P (flat_map f l).
Proof.
  intros H. induction l as [|x l IH]; simpl.
  - constructor.
  - apply Forall_app. auto.
Qed.

Lemma of_borg_type limit b :
  Forall (fun e => type e = "borg_archive"%string) (Listing.of_borg limit b).
Proof.
  unfold Listing.of_borg. destruct (Listing.attaches (snd b)); [|constructor].
  destruct (list_archives_cases (snd b) (Listing.after_mount (fst b) (snd b)) limit)
    as [->|(entries & -> & H)]; [constructor|].
  now apply Forall_slice_sort.
Qed.

Lemma of_s3_type limit b :
  Forall (fun e => type e = "s3_object"%string) (Listing.of_s3 limit b).
Proof.
  unfold Listing.of_s3.
  destruct (list_objects_cases (snd b) (fst b) limit)
    as [->|(entries & -> & H)]; [constructor|].
  now apply Forall_slice_sort.
Qed.

End TieFacts.

Lemma precedes_of_positions a b (l : list BackupEntry) i j :
  nth_error l i = Some a -> nth_error l j = Some b -> (i < j)%nat ->
  precedes a b l.
Proof.
  intros Hi Hj Hlt.
  destruct (nth_error_split l i Hi) as (l1 & l2 & -> & Hlen).
  rewrite nth_error_app2 in Hj by lia.
  destruct (j - List.length l1)%nat as [|m] eqn:Em; [lia|].
  simpl in Hj.
  destruct (nth_error_split l2 m Hj) as (l3 & l4 & -> & _).
  exists l1, l3, l4. reflexivity.
Qed.

(** The entries that [run] sorts are the concatenation; the sample
    configuration has an archive and an object of the same instant. *)
Example aggregate_sample :
  exists borg_repos tr',
    BackupsReporter.aggregate Samples.config [] =
    (Ret ([mkBackupEntry "borg:nas" "tuesday" (Samples.new_year + 86400 * Samples.second)
             (Some 2048) "borg_archive";
           mkBackupEntry "borg:nas" "monday" Samples.new_year (Some 123) "borg_archive";
           mkBackupEntry "s3:offsite" "db.dump" Samples.new_year (Some 1048576) "s3_object"],
          borg_repos), tr').
Proof. eexists _, _. reflexivity. Qed.

(** C5. Ties are not lost and not reordered.  The sequence that the first
    part of [run] produces is the stable descending sort of the
    concatenation of the per-source listings, cut at [max_total_entries].
    So for every timestamp the entries of the output that carry it are an
    initial part, in the same order, of the entries of the concatenation
    that carry it; two entries of equal timestamp that are both in the
    output stand there in the order they had in the concatenation; and
    when the cut removes nothing the output is a rearrangement of the whole
    concatenation. *)
Theorem ties_keep_concatenation_order (c : BackupsReporter.Config) (tr : trace) :
  exists entries borg_repos tr',
    BackupsReporter.aggregate c tr = (Ret (entries, borg_repos), tr')
    /\ (forall t, exists k,
           filter (has_timestamp t) entries
           = firstn k (filter (has_timestamp t) (Listing.concatenation c)))
    /\ (forall a b,
           timestamp a = timestamp b ->
           precedes a b entries ->
           precedes a b (Listing.concatenation c))
    /\ (Z.of_nat (List.length (Listing.concatenation c))
          <= get_default (BackupsReporter.max_total_entries c) 100 ->
        Permutation (Listing.concatenation c) entries).
Proof.
  destruct (aggregate_result c tr) as (mounted & tr' & E & _).
  eexists _, mounted, tr'. split; [exact E|]. repeat split.
  - intros t. apply ties_prefix.
  - intros a b Hab H. eapply precedes_stable; eauto.
  - intros Hlen. rewrite slice_to_all.
    + apply sort_desc_perm.
    + now rewrite sort_desc_length.
Qed.

Lemma ties_keep_concatenation_order_sample :
  let monday := mkBackupEntry "borg:nas" "monday" Samples.new_year (Some 123) "borg_archive" in
  let dump := mkBackupEntry "s3:offsite" "db.dump" Samples.new_year (Some 1048576) "s3_object" in
  timestamp monday = timestamp dump
  /\ precedes monday dump (Listing.concatenation Samples.config)
  /\ Permutation (Listing.concatenation Samples.config)
       (slice_to (sort_desc (Listing.concatenation Samples.config)) 100).
Proof.
  intros monday dump.
  destruct (ties_keep_concatenation_order Samples.config [])
    as (entries & borg_repos & tr' & E & _ & Horder & Hall).
  destruct (aggregate_result Samples.config []) as (m & tr'' & E' & _).
  rewrite E' in E. injection E as <- _ _.
  split; [reflexivity|]. split.
  - apply Horder; [reflexivity|].
    exists [mkBackupEntry "borg:nas" "tuesday" (Samples.new_year + 86400 * Samples.second)
              (Some 2048) "borg_archive"], [], [].
    reflexivity.
  - apply Hall. simpl. lia.
Defined.

(** C10. Archive entries come before object entries of the same
    timestamp: if in the sequence that the first part of [run] produces an
    entry of an archive repository stands at position [i] and an entry of
    an object store with the same timestamp at position [j], then
    [i < j]. *)
Theorem borg_before_s3_on_ties (c : BackupsReporter.Config) (tr : trace) :
  exists entries borg_repos tr',
    BackupsReporter.aggregate c tr = (Ret (entries, borg_repos), tr')
    /\ forall i j a b,
         nth_error entries i = Some a ->
         nth_error entries j = Some b ->
         type a = "borg_archive"%string ->
         type b = "s3_object"%string ->
         timestamp a = timestamp b ->
         (i < j)%nat.
Proof.
  destruct (aggregate_result c tr) as (mounted & tr' & E & _).
  eexists _, mounted, tr'. split; [exact E|].
  intros i j a b Hi Hj Ha Hb Hab.
  destruct (Nat.lt_trichotomy i j) as [Hlt|[Heq|Hgt]]; [exact Hlt| |].
  - subst j. rewrite Hi in Hj. inversion Hj; subst b.
    rewrite Ha in Hb. discriminate.
  - exfalso.
    pose proof (precedes_of_positions _ _ _ _ _ Hj Hi Hgt) as Hp.
    apply precedes_stable in Hp; [|now symmetry].
    unfold Listing.concatenation in Hp.
    eapply archives_before_objects; [| |exact Hp|exact Hb|exact Ha].
    + apply Forall_flat_map. intros x. apply of_borg_type.
    + apply Forall_flat_map. intros x. apply of_s3_type.
Qed.

Lemma borg_before_s3_on_ties_sample :
  exists entries,
    nth_error entries 1 = Some (mkBackupEntry "borg:nas" "monday" Samples.new_year
                                  (Some 123) "borg_archive")
    /\ nth_error entries 2 = Some (mkBackupEntry "s3:offsite" "db.dump" Samples.new_year
                                     (Some 1048576) "s3_object")
    /\ (1 < 2)%nat.
Proof.
  destruct (borg_before_s3_on_ties Samples.config [])
    as (entries & borg_repos & tr' & E & H).
  destruct (aggregate_result Samples.config []) as (m & tr'' & E' & _).
  rewrite E' in E. injection E as <- _ _.
  exists (slice_to (sort_desc (Listing.concatenation Samples.config)) 100).
  split; [reflexivity|]. split; [reflexivity|].
  apply (H 1%nat 2%nat
           (mkBackupEntry "borg:nas" "monday" Samples.new_year (Some 123) "borg_archive")
           (mkBackupEntry "s3:offsite" "db.dump" Samples.new_year (Some 1048576)
              "s3_object"));
    reflexivity.
Defined.

(** ** Failing backends *)

Section FailureFacts.

Lemma for_each_raises {S X} (body : X -> ST S unit) xs :
  Exists (fun x => forall s, exists e, fst (body x s) = Raise e) xs ->
  forall s, exists e, fst (for_each xs body s) = Raise e.
Proof.
  induction xs as [|x xs IH]; intros H s; inversion H; subst; simpl; unfold bind.
  - destruct (H1 s) as [e He].
    destruct (body x s) as [[[]|e'] s']; simpl in *; [discriminate|eauto].
  - destruct (body x s) as [[[]|e'] s']; simpl; [now apply IH|eauto].
Qed.

Lemma attach_fails env : Failure.attach env -> Listing.attaches env = false.
Proof.
  unfold Listing.attaches.
  intros [[e H]|[[e H]|(rc & err & H & Hrc)]]; rewrite H.
  - reflexivity.
  - now destruct (BorgRepository.mkdtemp env).
  - destruct (BorgRepository.mkdtemp env); [|reflexivity].
    now apply Z.eqb_neq.
Qed.

Lemma broken_item_raises mp c item :
  Failure.broken_item item ->
  forall s, exists e, fst (BorgRepository.append_archive mp c item s) = Raise e.
Proof.
  intros H s.
  assert (Ha : exists e, BorgRepository.archive_entry mp c item = Raise e).
  { unfold BorgRepository.archive_entry.
    destruct H as [[e H]|[Hd [e H]]].
    - rewrite H. simpl. eauto.
    - rewrite Hd, H. simpl. eauto. }
  destruct Ha as [e Ha].
  unfold BorgRepository.append_archive, bind, lift. rewrite Ha. simpl. eauto.
Qed.

Lemma archive_listing_fails env r limit :
  Failure.archive_listing env -> BorgRepository.list_archives env r limit = [].
Proof.
  intros H. unfold BorgRepository.list_archives.
  destruct (BorgRepository.mount_point r) as [mp|]; [|reflexivity].
  destruct (String.eqb mp EmptyString); [reflexivity|].
  assert (Hr : exists e,
             fst (BorgRepository.collect_archives mp env (BorgRepository.config r) [])
             = Raise e).
  { unfold BorgRepository.collect_archives, bind.
    destruct H as [[e H]|H].
    - rewrite H.
      destruct (for_each _ _ _) as [[[]|e'] s]; simpl; eauto.
    - assert (H' : Exists (fun item => forall s, exists e,
                               fst (BorgRepository.append_archive mp
                                      (BorgRepository.config r) item s) = Raise e)
                       (BorgRepository.iterdir_items env)).
      { eapply Exists_impl; [|exact H].
        intros item Hitem. now apply broken_item_raises. }
      destruct (for_each_raises _ _ H' []) as [e He].
      destruct (for_each _ _ _) as [[[]|e'] s]; simpl in *; [discriminate|eauto]. }
  destruct Hr as [e Hr].
  destruct (BorgRepository.collect_archives _ _ _ _) as [[[]|e'] s];
    simpl in Hr; [discriminate|reflexivity].
Qed.

Lemma object_listing_fails env c limit :
  Failure.object_listing env -> S3Bucket.list_objects env c limit = [].
Proof.
  intros [e H]. unfold S3Bucket.list_objects, S3Bucket.collect_objects, bind.
  rewrite H.
  destruct (for_each _ _ _) as [[[]|e'] s]; reflexivity.
Qed.

Lemma failing_borg_lists_nothing limit b :
  Failure.attach (snd b) \/ Failure.archive_listing (snd b) ->
  Listing.of_borg limit b = [].
Proof.
  unfold Listing.of_borg. intros [H|H].
  - now rewrite attach_fails.
  - destruct (Listing.attaches (snd b)); [|reflexivity].
    now apply archive_listing_fails.
Qed.

End FailureFacts.

(** C3. A backend in error adds nothing, and the others are still served.
    When an archive repository cannot be attached (the attachment point
    cannot be made, [borg mount] times out, raises or exits with a status
    other than 0), or is attached and cannot be listed, or when the listing
    of a bucket raises, that backend hands no entry at all to the merge, and
    the first part of [run] returns normally with exactly the sequence it
    produces when the backend is taken out of the configuration. *)
Theorem failing_backend_contributes_nothing (c : BackupsReporter.Config) (tr : trace) :
  let limit := get_default (BackupsReporter.entries_per_source c) 10 in
  (forall pre b post,
      BackupsReporter.borg_repositories c = pre ++ b :: post ->
      Failure.attach (snd b) \/ Failure.archive_listing (snd b) ->
      Listing.of_borg limit b = []
      /\ exists entries r1 t1 r2 t2,
           BackupsReporter.aggregate c tr = (Ret (entries, r1), t1)
           /\ BackupsReporter.aggregate (with_borg_repositories c (pre ++ post)) tr
              = (Ret (entries, r2), t2))
  /\ (forall pre b post,
         BackupsReporter.s3_buckets c = pre ++ b :: post ->
         Failure.object_listing (snd b) ->
         Listing.of_s3 limit b = []
         /\ exists entries r1 t1 r2 t2,
              BackupsReporter.aggregate c tr = (Ret (entries, r1), t1)
              /\ BackupsReporter.aggregate (with_s3_buckets c (pre ++ post)) tr
                 = (Ret (entries, r2), t2)).
Proof.
  intros limit. split; intros pre b post Hc Hfail.
  - pose proof (failing_borg_lists_nothing limit b Hfail) as Hnil.
    split; [exact Hnil|].
    destruct (aggregate_result c tr) as (r1 & t1 & E1 & _).
    destruct (aggregate_result (with_borg_repositories c (pre ++ post)) tr)
      as (r2 & t2 & E2 & _).
    eexists _, r1, t1, r2, t2. split; [exact E1|].
    rewrite E2. unfold Listing.concatenation; simpl.
    rewrite Hc, !flat_map_app. simpl. fold limit. rewrite Hnil. reflexivity.
  - assert (Hnil : Listing.of_s3 limit b = [])
      by (now apply object_listing_fails).
    split; [exact Hnil|].
    destruct (aggregate_result c tr) as (r1 & t1 & E1 & _).
    destruct (aggregate_result (with_s3_buckets c (pre ++ post)) tr)
      as (r2 & t2 & E2 & _).
    eexists _, r1, t1, r2, t2. split; [exact E1|].
    rewrite E2. unfold Listing.concatenation; simpl.
    rewrite Hc, !flat_map_app. simpl. fold limit. rewrite Hnil. reflexivity.
Qed.

Lemma failing_backend_sample :
  (Failure.attach Samples.nas_timeout \/ Failure.archive_listing Samples.nas_timeout)
  /\ Listing.of_borg 10 (Samples.nas, Samples.nas_timeout) = []
  /\ exists entries r1 t1 r2 t2,
       BackupsReporter.aggregate Samples.config_partly_failing [] = (Ret (entries, r1), t1)
       /\ BackupsReporter.aggregate
            (with_borg_repositories Samples.config_partly_failing
               ([] ++ [(Samples.nas, Samples.nas_unlistable); (Samples.nas, Samples.nas_up)]))
            []
          = (Ret (entries, r2), t2).
Proof.
  assert (H : Failure.attach Samples.nas_timeout
              \/ Failure.archive_listing Samples.nas_timeout).
  { left. right. left. exists TimeoutExpired. reflexivity. }
  split; [exact H|].
  exact (proj1 (failing_backend_contributes_nothing Samples.config_partly_failing [])
           [] (Samples.nas, Samples.nas_timeout)
           [(Samples.nas, Samples.nas_unlistable); (Samples.nas, Samples.nas_up)]
           eq_refl H).
Defined.

(** In the sample with two failing repositories and one failing bucket the
    report has the entries of the working repository and of the working
    bucket. *)
Example aggregate_partly_failing :
  exists borg_repos tr',
    BackupsReporter.aggregate Samples.config_partly_failing [] =
    (Ret ([mkBackupEntry "borg:nas" "tuesday" (Samples.new_year + 86400 * Samples.second)
             (Some 2048) "borg_archive";
           mkBackupEntry "borg:nas" "monday" Samples.new_year (Some 123) "borg_archive";
           mkBackupEntry "s3:offsite" "db.dump" Samples.new_year (Some 1048576) "s3_object"],
          borg_repos), tr').
Proof. eexists _, _. reflexivity. Qed.

(** ** Notifications *)

Section PingFacts.
Variable w : World.
Hypothesis Htransport : transport_failures_only w.

Lemma posted_urls_app tr1 tr2 :
  posted_urls (tr1 ++ tr2) = posted_urls tr1 ++ posted_urls tr2.
Proof. apply flat_map_app. Qed.

(** One turn of the loop of [ping]: a request goes out to the address of
    the webhook, and the turn ends normally whatever the answer. *)
Lemma ping_one status message webhook tr :
  exists body,
    try_except (WebhookNotifier.send_one w status message webhook)
      isinstance_RequestException (fun _ => ret tt) tr
    = (Ret tt, tr ++ [HttpPost (WebhookNotifier.target_url status webhook) body]).
Proof.
  unfold WebhookNotifier.send_one, WebhookNotifier.target_url.
  destruct (WebhookNotifier.is_healthcheck webhook);
    eexists; unfold try_except, bind, WebhookNotifier.post, bind, get, emit, modify, lift;
    simpl;
    match goal with
    | |- context [http_post w ?t ?u ?b] =>
        destruct (http_post w t u b) as [code|e] eqn:E
    end; simpl.
  1, 3: unfold WebhookNotifier.raise_for_status;
        destruct ((400 <=? code) && (code <? 600)); reflexivity.
  all: rewrite (Htransport _ _ _ _ E); reflexivity.
Qed.

Lemma ping_all webhooks status message : forall tr,
  exists tr',
    WebhookNotifier.ping w webhooks status message tr = (Ret tt, tr')
    /\ posted_urls tr'
       = posted_urls tr ++ map (WebhookNotifier.target_url status) webhooks.
Proof.
  unfold WebhookNotifier.ping.
  induction webhooks as [|webhook webhooks IH]; intros tr; simpl.
  - exists tr. now rewrite app_nil_r.
  - unfold bind at 1.
    destruct (ping_one status message webhook tr) as [body ->].
    destruct (IH (tr ++ [HttpPost (WebhookNotifier.target_url status webhook) body]))
      as (tr' & -> & Hurls).
    exists tr'. split; [reflexivity|].
    rewrite Hurls, posted_urls_app. simpl. now rewrite <- app_assoc.
Qed.

End PingFacts.

(** C9. [ping] serves every endpoint on its own.  When the failures of the
    HTTP layer are transport failures, then for every list of webhooks,
    every status and every message the call returns normally, and it has
    sent one request to each webhook of the list, in order, whether or not
    the requests before it failed. *)
Theorem ping_attempts_every_endpoint (w : World) (webhooks : list string)
    (status message : string) (tr : trace) :
  transport_failures_only w ->
  exists tr',
    WebhookNotifier.ping w webhooks status message tr = (Ret tt, tr')
    /\ posted_urls tr'
       = posted_urls tr ++ map (WebhookNotifier.target_url status) webhooks.
Proof. intros H. now apply ping_all. Qed.

Lemma ping_unreachable_endpoint :
  transport_failures_only Samples.a_unreachable
  /\ exists tr',
       WebhookNotifier.ping Samples.a_unreachable
         ["https://a.example/hook"; "https://b.example/hook"]%string
         "success" "done" [] = (Ret tt, tr')
       /\ posted_urls tr'
          = posted_urls []
            ++ map (WebhookNotifier.target_url "success")
                 ["https://a.example/hook"; "https://b.example/hook"]%string.
Proof.
  assert (H : transport_failures_only Samples.a_unreachable).
  { intros tr url body e. simpl.
    destruct (String.eqb url "https://a.example/hook"); [|discriminate].
    intros E. injection E as <-. reflexivity. }
  split; [exact H|].
  exact (ping_attempts_every_endpoint Samples.a_unreachable
           ["https://a.example/hook"; "https://b.example/hook"]%string
           "success" "done" [] H).
Defined.

(** The first endpoint cannot be reached; the second still gets its
    request. *)
Example ping_unreachable_trace :
  WebhookNotifier.ping Samples.a_unreachable
    ["https://a.example/hook"; "https://b.example/hook"]%string "success" "done" []
  = (Ret tt,
     [HttpPost "https://a.example/hook" (JsonBody "success" "done" Samples.new_year);
      HttpPost "https://b.example/hook" (JsonBody "success" "done" Samples.new_year)]).
Proof. reflexivity. Qed.

(** An exception that is not of class [RequestException] leaves [ping]. *)
Example ping_other_exception :
  WebhookNotifier.ping
    (mkWorld (fun _ _ _ => Raise RuntimeError) (fun _ => 0) (fun _ _ => Ret tt))
    ["https://a.example/hook"; "https://b.example/hook"]%string "success" "done" []
  = (Raise RuntimeError,
     [HttpPost "https://a.example/hook" (JsonBody "success" "done" 0)]).
Proof. reflexivity. Qed.

(** ** The size scan *)

Section ScanFacts.

Lemma fs_node_induction (P : BorgRepository.fs_node -> Prop) :
  (forall f g, P (BorgRepository.File f g)) ->
  (forall d r children, Forall P children -> P (BorgRepository.Dir d r children)) ->
  forall n, P n.
Proof.
  intros HF HD. fix IH 1. intros [f g|d r children]; [apply HF|].
  apply HD. induction children as [|c children IHc]; constructor.
  - apply IH.
  - exact IHc.
Qed.

Lemma sum_app l1 l2 : Tree.sum (l1 ++ l2) = Tree.sum l1 + Tree.sum l2.
Proof.
  unfold Tree.sum. induction l1 as [|x l1 IH]; simpl; [reflexivity|].
  rewrite IH. lia.
Qed.

Lemma file_sizes_cons f files :
  Tree.file_sizes (f :: files) = Tree.file_sizes [f] ++ Tree.file_sizes files.
Proof. unfold Tree.file_sizes. simpl. now rewrite app_nil_r. Qed.

(** Two results of a scan agree when their totals do. *)
Ltac same_total :=
  match goal with
  | |- (_, BorgRepository.mkCounters ?a _) = (_, BorgRepository.mkCounters ?b _) =>
      replace b with a; [reflexivity|]
  end.

(** A file that answers adds its size and is counted; a file that fails
    with an access error changes nothing; either way the loop goes on. *)
Lemma count_file_ok f c :
  match snd f with Ret _ => True | Raise e => isinstance_OSError e = true end ->
  exists k,
    BorgRepository.count_file f c
    = (Ret tt, BorgRepository.mkCounters
                 (BorgRepository.total_size c + Tree.sum (Tree.file_sizes [f])) k).
Proof.
  unfold BorgRepository.count_file, try_except, bind, lift, modify, Tree.file_sizes.
  destruct f as [fname [n|e]]; simpl; intros H.
  - eexists. same_total. lia.
  - rewrite H. exists (BorgRepository.file_count c). destruct c; simpl.
    unfold ret. same_total. lia.
Qed.

Lemma scan_files_ok files : forall c,
  Tree.files_ok files ->
  exists k,
    for_each files BorgRepository.count_file c
    = (Ret tt, BorgRepository.mkCounters
                 (BorgRepository.total_size c + Tree.sum (Tree.file_sizes files)) k).
Proof.
  induction files as [|f files IH]; intros c H; cbn [for_each].
  - exists (BorgRepository.file_count c). destruct c; simpl.
    unfold ret. same_total. lia.
  - apply Forall_cons_iff in H. destruct H as [H2 H3]. unfold bind.
    destruct (count_file_ok f c H2) as [k ->].
    destruct (IH (BorgRepository.mkCounters
                    (BorgRepository.total_size c + Tree.sum (Tree.file_sizes [f])) k) H3)
      as [k' ->].
    exists k'. same_total.
    rewrite (file_sizes_cons f files), sum_app.
    cbn [BorgRepository.total_size]. lia.
Qed.

Lemma scan_walk_ok steps : forall c,
  Forall (fun step => Tree.files_ok (snd step)) steps ->
  exists k,
    BorgRepository.scan_walk steps c
    = (Ret tt, BorgRepository.mkCounters
                 (BorgRepository.total_size c + Tree.sum (Tree.walk_sizes steps)) k).
Proof.
  unfold BorgRepository.scan_walk.
  induction steps as [|step steps IH]; intros c H; cbn [for_each].
  - exists (BorgRepository.file_count c). destruct c; simpl.
    unfold ret. same_total. lia.
  - apply Forall_cons_iff in H. destruct H as [H2 H3]. unfold bind.
    destruct (scan_files_ok (snd step) c H2) as [k ->].
    destruct (IH (BorgRepository.mkCounters
                    (BorgRepository.total_size c
                     + Tree.sum (Tree.file_sizes (snd step))) k) H3)
      as [k' ->].
    exists k'. same_total.
    cbn [BorgRepository.total_size].
    transitivity (BorgRepository.total_size c
                  + (Tree.sum (Tree.file_sizes (snd step))
                     + Tree.sum (Tree.walk_sizes steps))); [lia|].
    f_equal. rewrite <- sum_app. reflexivity.
Qed.

Lemma file_sizes_app l1 l2 :
  Tree.file_sizes (l1 ++ l2) = Tree.file_sizes l1 ++ Tree.file_sizes l2.
Proof. apply flat_map_app. Qed.

Lemma walk_sizes_app l1 l2 :
  Tree.walk_sizes (l1 ++ l2) = Tree.walk_sizes l1 ++ Tree.walk_sizes l2.
Proof. apply flat_map_app. Qed.

Lemma filenames_cons c children :
  BorgRepository.filenames (c :: children)
  = BorgRepository.filenames [c] ++ BorgRepository.filenames children.
Proof. unfold BorgRepository.filenames. simpl. now rewrite app_nil_r. Qed.

(** What the walk below a list of children adds up to. *)
Lemma walk_children_total root children :
  Forall (fun n => forall r,
            Tree.sum (Tree.walk_sizes (BorgRepository.walk_node r n))
            = match n with
              | BorgRepository.File _ _ => 0
              | BorgRepository.Dir _ _ _ => Tree.sum (Tree.accessible_sizes n)
              end) children ->
  Tree.sum (Tree.file_sizes (BorgRepository.filenames children))
  + Tree.sum (Tree.walk_sizes (flat_map (BorgRepository.walk_node root) children))
  = Tree.sum (flat_map Tree.accessible_sizes children).
Proof.
  induction 1 as [|c children Hc _ IH]; [reflexivity|].
  rewrite filenames_cons. cbn [flat_map].
  rewrite file_sizes_app, walk_sizes_app, !sum_app, <- IH, (Hc root).
  destruct c as [f [n|e]|d r cs]; simpl; lia.
Qed.

Lemma walk_node_total n : forall root,
  Tree.sum (Tree.walk_sizes (BorgRepository.walk_node root n))
  = match n with
    | BorgRepository.File _ _ => 0
    | BorgRepository.Dir _ _ _ => Tree.sum (Tree.accessible_sizes n)
    end.
Proof.
  induction n as [f g|d r children IH] using fs_node_induction; intros root;
    [reflexivity|].
  destruct r; [|reflexivity].
  cbn [BorgRepository.walk_node Tree.accessible_sizes].
  rewrite <- (walk_children_total (root ++ "/" ++ d) children IH).
  unfold Tree.walk_sizes at 1. cbn [flat_map snd]. rewrite sum_app. reflexivity.
Qed.

Lemma walk_total top readable children :
  Tree.sum (Tree.walk_sizes (BorgRepository.walk top readable children))
  = Tree.sum (Tree.accessible_sizes (BorgRepository.Dir top readable children)).
Proof.
  unfold BorgRepository.walk. cbn [Tree.accessible_sizes].
  destruct readable; [|reflexivity].
  rewrite <- (walk_children_total top children).
  - unfold Tree.walk_sizes at 1. cbn [flat_map snd]. rewrite sum_app. reflexivity.
  - apply Forall_forall. intros n _. apply walk_node_total.
Qed.

Lemma filenames_ok children :
  forallb Tree.access_errors_only children = true ->
  Tree.files_ok (BorgRepository.filenames children).
Proof.
  unfold Tree.files_ok.
  induction children as [|c children IH]; simpl; intros H; [constructor|].
  apply andb_prop in H. destruct H as [Hc H].
  apply Forall_app. split; [|now apply IH].
  destruct c as [f [n|e]|d r cs]; repeat constructor. exact Hc.
Qed.

Lemma walk_node_ok n : forall root,
  Tree.access_errors_only n = true ->
  Forall (fun step => Tree.files_ok (snd step)) (BorgRepository.walk_node root n).
Proof.
  induction n as [f g|d r children IH] using fs_node_induction; intros root H;
    [constructor|].
  destruct r; [|constructor].
  cbn [BorgRepository.walk_node Tree.access_errors_only] in *.
  constructor; [now apply filenames_ok|].
  revert H. induction IH as [|c children Hc _ IHc]; simpl; intros H; [constructor|].
  apply andb_prop in H. destruct H as [H1 H2].
  apply Forall_app. split; [now apply Hc|now apply IHc].
Qed.

Lemma walk_ok top readable children :
  Tree.access_errors_only (BorgRepository.Dir top readable children) = true ->
  Forall (fun step => Tree.files_ok (snd step))
    (BorgRepository.walk top readable children).
Proof.
  intros H. unfold BorgRepository.walk. cbn [Tree.access_errors_only] in H.
  destruct readable; [|constructor].
  constructor; [now apply filenames_ok|].
  induction children as [|c children IH]; simpl in *; [constructor|].
  apply andb_prop in H. destruct H as [H1 H2].
  apply Forall_app. split; [now apply walk_node_ok|now apply IH].
Qed.

End ScanFacts.

(** C8. The size scan always returns a byte count, whatever the tree and
    whatever exception a file raises; and when the files that cannot be
    read fail with access errors, the count is the sum of the sizes of the
    accessible files: a file that cannot be read is passed over, the scan
    goes on and the sizes of the others are all added. *)
Theorem scan_returns_sum_of_accessible_files :
  (forall directory_path readable children,
      exists n,
        BorgRepository._calculate_directory_size directory_path readable children
        = Ret n)
  /\ (forall directory_path readable children,
         Tree.access_errors_only
           (BorgRepository.Dir directory_path readable children) = true ->
         BorgRepository._calculate_directory_size directory_path readable children
         = Ret (Tree.sum (Tree.accessible_sizes
                            (BorgRepository.Dir directory_path readable children)))).
Proof.
  split; intros directory_path readable children.
  - unfold BorgRepository._calculate_directory_size, try_except.
    destruct (BorgRepository.scan_walk _ _) as [[[]|e] c]; simpl; eauto.
  - intros H. unfold BorgRepository._calculate_directory_size, try_except.
    destruct (scan_walk_ok (BorgRepository.walk directory_path readable children)
                (BorgRepository.mkCounters 0 0)
                (walk_ok directory_path readable children H))
      as [k ->].
    cbn [obind BorgRepository.total_size].
    rewrite walk_total, Z.add_0_l. reflexivity.
Qed.

Lemma scan_monday :
  Tree.access_errors_only
    (BorgRepository.Dir "/tmp/borg_nas_k3/monday" true
       (BorgRepository.contents Samples.monday)) = true
  /\ BorgRepository._calculate_directory_size "/tmp/borg_nas_k3/monday" true
       (BorgRepository.contents Samples.monday)
     = Ret (Tree.sum (Tree.accessible_sizes
                        (BorgRepository.Dir "/tmp/borg_nas_k3/monday" true
                           (BorgRepository.contents Samples.monday)))).
Proof.
  assert (H : Tree.access_errors_only
                (BorgRepository.Dir "/tmp/borg_nas_k3/monday" true
                   (BorgRepository.contents Samples.monday)) = true)
    by reflexivity.
  split; [exact H|].
  exact (proj2 scan_returns_sum_of_accessible_files "/tmp/borg_nas_k3/monday"%string
           true (BorgRepository.contents Samples.monday) H).
Defined.

(** Three files of 100, 20 and 3 bytes can be read, two cannot. *)
Example scan_monday_value :
  BorgRepository._calculate_directory_size "/tmp/borg_nas_k3/monday" true
    (BorgRepository.contents Samples.monday) = Ret 123
  /\ Tree.accessible_sizes
       (BorgRepository.Dir "/tmp/borg_nas_k3/monday" true
          (BorgRepository.contents Samples.monday)) = [100; 20; 3].
Proof. split; reflexivity. Qed.

(** An exception that is not an access error ends the scan; the bytes
    counted so far are returned. *)
Example scan_interrupted :
  BorgRepository._calculate_directory_size "/mnt" true
    [BorgRepository.File "a" (Ret 5);
     BorgRepository.File "b" (Raise RuntimeError);
     BorgRepository.File "c" (Ret 7)] = Ret 5.
Proof. reflexivity. Qed.

(** ** Sizes as text *)

Section FormatFacts.

(** Integers below [2^53] are binary64 numbers. *)
Lemma float_of_int_small n : Z.abs n < 2 ^ 53 -> PyFmt.float_of_int n = Ret n.
Proof.
  intros H. unfold PyFmt.float_of_int.
  destruct (Z.abs n <? 2 ^ 53) eqn:E; [reflexivity|].
  apply Z.ltb_ge in E. lia.
Qed.

(** Rounding does not take a large integer below [2^53]. *)
Lemma float_of_int_large n m :
  2 ^ 53 <= n -> PyFmt.float_of_int n = Ret m -> 2 ^ 53 <= m.
Proof.
  intros Hn. unfold PyFmt.float_of_int.
  rewrite (Z.abs_eq n) by lia.
  destruct (n <? 2 ^ 53) eqn:E; [apply Z.ltb_lt in E; lia|].
  set (e := Z.log2 n - 52).
  assert (He : 1 <= e).
  { unfold e. assert (53 <= Z.log2 n); [|lia].
    change 53 with (Z.log2 (2 ^ 53)). apply Z.log2_le_mono. exact Hn. }
  set (q := Z.shiftr n e).
  assert (Hq : 2 ^ 52 <= q).
  { unfold q. rewrite Z.shiftr_div_pow2 by lia.
    apply Z.div_le_lower_bound; [apply Z.pow_pos_nonneg; lia|].
    rewrite <- Z.pow_add_r by lia.
    replace (e + 52) with (Z.log2 n) by (unfold e; lia).
    apply Z.log2_spec. lia. }
  match goal with
  | |- context [Z.shiftl ?x e] =>
      match x with
      | q => fail 1
      | _ => set (q' := x)
      end
  end.
  assert (Hq' : q <= q').
  { unfold q'. destruct (_ || _); lia. }
  destruct (2 ^ 1024 <=? Z.shiftl q' e); [discriminate|].
  intros H. injection H as <-.
  rewrite Z.shiftl_mul_pow2 by lia.
  rewrite Z.sgn_pos by lia.
  assert (2 ^ 1 <= 2 ^ e) by (apply Z.pow_le_mono_r; lia).
  change (2 ^ 53) with (2 ^ 52 * 2 ^ 1).
  rewrite Z.mul_1_l.
  apply Z.mul_le_mono_nonneg; lia.
Qed.

(** Up to [2^53] a threshold separates the integer and its float alike. *)
Lemma float_threshold n m t :
  0 <= n -> t <= 2 ^ 53 -> PyFmt.float_of_int n = Ret m ->
  (m <? t) = (n <? t).
Proof.
  intros H0 Ht Hm.
  destruct (Z.lt_ge_cases n (2 ^ 53)) as [Hs|Hl].
  - rewrite float_of_int_small in Hm by lia. now injection Hm as <-.
  - pose proof (float_of_int_large n m Hl Hm).
    destruct (Z.ltb_spec m t), (Z.ltb_spec n t); try reflexivity; lia.
Qed.

End FormatFacts.

Section FormatSizeFacts.

(** [format_size] in closed form: the integer is made a float, scaled by
    the power of 1024 of its unit and printed with one decimal. *)
Lemma format_size_closed n :
  EmailReporter.format_size (Some n)
  = obind (PyFmt.float_of_int n) (fun m =>
      Ret (PyFmt.fixed1 m (1024 ^ Z.of_nat (SizeUnit.scale n))
           ++ " " ++ SizeUnit.name (SizeUnit.scale n))%string).
Proof.
  unfold EmailReporter.format_size, EmailReporter.units, SizeUnit.scale.
  cbn [EmailReporter.format_units PyFmt.lt_1024].
  destruct (n <? 1024) eqn:E0.
  - unfold PyFmt.format_1f, PyFmt.to_float.
    destruct (PyFmt.float_of_int n) as [m|e]; reflexivity.
  - apply Z.ltb_ge in E0.
    unfold PyFmt.div_1024, PyFmt.to_float.
    destruct (PyFmt.float_of_int n) as [m|e] eqn:F; [|reflexivity].
    cbn [obind EmailReporter.format_units PyFmt.lt_1024 PyFmt.div_1024
           PyFmt.to_float PyFmt.format_1f].
    change (1024 * 1024 ^ Z.of_nat 1) with (1024 ^ 2).
    change (1024 * 1024 ^ Z.of_nat 2) with (1024 ^ 3).
    change (1024 * 1024 ^ Z.of_nat 3) with (1024 ^ 4).
    change (1024 * 1024 ^ Z.of_nat 4) with (1024 ^ 5).
    assert (H0 : 0 <= n) by lia.
    rewrite !(float_threshold n m _ H0) by (try exact F; vm_compute; discriminate).
    destruct (n <? 1024 ^ 2); [reflexivity|].
    destruct (n <? 1024 ^ 3); [reflexivity|].
    destruct (n <? 1024 ^ 4); [reflexivity|].
    destruct (n <? 1024 ^ 5); reflexivity.
Qed.

Lemma scale_bound n : (SizeUnit.scale n <= 5)%nat.
Proof.
  unfold SizeUnit.scale.
  repeat match goal with
         | |- context [if ?b then _ else _] => destruct b
         end; lia.
Qed.

Lemma scale_monotone n1 n2 : n1 <= n2 -> (SizeUnit.scale n1 <= SizeUnit.scale n2)%nat.
Proof.
  intros H. unfold SizeUnit.scale.
  repeat match goal with
         | |- context [?a <? ?b] => destruct (Z.ltb_spec a b)
         end; lia.
Qed.

Lemma endswith_app suffix p s :
  PyStr.endswith suffix s = true -> PyStr.endswith suffix (p ++ s) = true.
Proof.
  intros H. induction p as [|c p IH]; simpl; [exact H|].
  rewrite IH. apply orb_true_r.
Qed.

Lemma unit_name_ends_with_B k : (k <= 5)%nat -> PyStr.endswith "B" (SizeUnit.name k) = true.
Proof.
  intros H. do 6 (destruct k as [|k]; [reflexivity|]). lia.
Qed.

End FormatSizeFacts.

(** C4. An absent size is rendered as the marker [N/A] and a present size
    never is; 1023, 1024 and 1048576 bytes are rendered as [1023.0 B],
    [1.0 KB] and [1.0 MB]; and every present size is rendered as its value
    divided by [1024 ^ k] with one decimal, followed by the [k]-th of the
    units B, KB, MB, GB, TB, PB, where [k] goes one step up at each power
    of 1024 and so never goes down when the size grows. *)
Theorem format_size_marker_and_units :
  EmailReporter.format_size None = Ret "N/A"%string
  /\ (forall n, EmailReporter.format_size (Some n) <> Ret "N/A"%string)
  /\ EmailReporter.format_size (Some 1023) = Ret "1023.0 B"%string
  /\ EmailReporter.format_size (Some 1024) = Ret "1.0 KB"%string
  /\ EmailReporter.format_size (Some 1048576) = Ret "1.0 MB"%string
  /\ (forall n,
        EmailReporter.format_size (Some n)
        = obind (PyFmt.float_of_int n) (fun m =>
            Ret (PyFmt.fixed1 m (1024 ^ Z.of_nat (SizeUnit.scale n))
                 ++ " " ++ SizeUnit.name (SizeUnit.scale n))%string))
  /\ (forall n k, (k < 5)%nat ->
        1024 ^ Z.of_nat k <= n < 1024 ^ Z.of_nat (S k) -> SizeUnit.scale n = k)
  /\ (forall n, 1024 ^ 5 <= n -> SizeUnit.scale n = 5%nat)
  /\ (forall n1 n2, n1 <= n2 -> (SizeUnit.scale n1 <= SizeUnit.scale n2)%nat).
Proof.
  split; [reflexivity|].
  split.
  { intros n H. rewrite format_size_closed in H.
    destruct (PyFmt.float_of_int n) as [m|e]; [|discriminate].
    simpl in H. injection H as H.
    assert (E : PyStr.endswith "B" "N/A" = true).
    { rewrite <- H. rewrite !endswith_app; [reflexivity|].
      apply unit_name_ends_with_B, scale_bound. }
    discriminate E. }
  split; [reflexivity|].
  split; [reflexivity|].
  split; [reflexivity|].
  split; [exact format_size_closed|].
  split.
  { intros n k Hk [Hlo Hhi]. unfold SizeUnit.scale.
    do 5 (destruct k as [|k]; [
      repeat match goal with
             | |- context [?a <? ?b] => destruct (Z.ltb_spec a b)
             end; simpl in *; lia |]).
    lia. }
  split.
  { intros n H. unfold SizeUnit.scale.
    repeat match goal with
           | |- context [?a <? ?b] => destruct (Z.ltb_spec a b)
           end; lia. }
  exact scale_monotone.
Qed.

Lemma format_size_units_sample :
  1023 <= 1024
  /\ (SizeUnit.scale 1023 <= SizeUnit.scale 1024)%nat
  /\ (1 < 5)%nat
  /\ 1024 ^ Z.of_nat 1 <= 1500 < 1024 ^ Z.of_nat 2
  /\ SizeUnit.scale 1500 = 1%nat.
Proof.
  assert (H : 1023 <= 1024) by lia.
  assert (Hk : (1 < 5)%nat) by lia.
  assert (Hn : 1024 ^ Z.of_nat 1 <= 1500 < 1024 ^ Z.of_nat 2) by (simpl; lia).
  destruct format_size_marker_and_units
    as (_ & _ & _ & _ & _ & _ & Hstep & _ & Hmono).
  split; [exact H|]. split; [exact (Hmono 1023 1024 H)|].
  split; [exact Hk|]. split; [exact Hn|].
  exact (Hstep 1500 1%nat Hk Hn).
Defined.

(** Half-way cases go to the even digit, and a value just below the next
    unit is printed as 1024.0 of the unit it has. *)
Example format_size_rounding :
  EmailReporter.format_size (Some 1280) = Ret "1.2 KB"%string
  /\ EmailReporter.format_size (Some 1792) = Ret "1.8 KB"%string
  /\ EmailReporter.format_size (Some 1048575) = Ret "1024.0 KB"%string
  /\ EmailReporter.format_size (Some 0) = Ret "0.0 B"%string
  /\ EmailReporter.format_size (Some (1024 ^ 6)) = Ret "1024.0 PB"%string.
Proof. repeat split; reflexivity. Qed.

(** ** The report *)

Lemma Ret_inj {A} (a b : A) : Ret a = Ret b -> a = b.
Proof. intros H. now inversion H. Qed.

Section StringFacts.
Local Open Scope string_scope.

Lemma str_app_assoc a b c : (a ++ b) ++ c = a ++ (b ++ c).
Proof. induction a as [|x a IH]; simpl; [reflexivity|now rewrite IH]. Qed.

Lemma str_app_nil_r a : a ++ EmptyString = a.
Proof. induction a as [|x a IH]; simpl; [reflexivity|now rewrite IH]. Qed.

Lemma str_app_length a b :
  String.length (a ++ b) = (String.length a + String.length b)%nat.
Proof. induction a as [|x a IH]; simpl; [reflexivity|now rewrite IH]. Qed.

Lemma str_app_cancel_l a x y : a ++ x = a ++ y -> x = y.
Proof.
  induction a as [|c a IH]; simpl; intros H; [exact H|].
  injection H as H. now apply IH.
Qed.

Lemma str_app_cancel_r x : forall y r, x ++ r = y ++ r -> x = y.
Proof.
  induction x as [|c x IH]; intros [|d y] r H; simpl in H.
  - reflexivity.
  - apply (f_equal String.length) in H. simpl in H.
    rewrite str_app_length in H. lia.
  - apply (f_equal String.length) in H. simpl in H.
    rewrite str_app_length in H. lia.
  - injection H as -> H. f_equal. now apply (IH y r).
Qed.

End StringFacts.

Section RenderFacts.
Local Open Scope string_scope.

(** The rows do not depend on the text before them. *)
Lemma render_rows_prefix entries : forall html,
  EmailReporter.render_rows entries html
  = obind (EmailReporter.render_rows entries EmptyString) (fun rows => Ret (html ++ rows)).
Proof.
  induction entries as [|entry entries IH]; intros html; simpl.
  - now rewrite str_app_nil_r.
  - destruct (EmailReporter.render_row entry) as [r|e]; simpl; [|reflexivity].
    rewrite (IH (html ++ r)), (IH r).
    destruct (EmailReporter.render_rows entries EmptyString) as [rows|e]; simpl;
      [|reflexivity].
    now rewrite str_app_assoc.
Qed.

(** The document is the heading, which carries the generation time and
    the number of entries, then the rows, then the closing text. *)
Lemma report_shape now entries :
  EmailReporter._generate_html_report now entries
  = obind (EmailReporter.render_rows entries EmptyString) (fun rows =>
      Ret (EmailReporter.header_0
           ++ PyFmt.strftime now
           ++ (" UTC" ++ EmailReporter.header_1
               ++ PyFmt.str_int (Z.of_nat (List.length entries))
               ++ EmailReporter.header_2 ++ rows ++ EmailReporter.footer_0))).
Proof.
  unfold EmailReporter._generate_html_report.
  rewrite render_rows_prefix.
  destruct (EmailReporter.render_rows entries EmptyString) as [rows|e]; cbn [obind];
    [|reflexivity].
  f_equal.
  generalize EmailReporter.header_0, EmailReporter.header_1,
    EmailReporter.header_2, EmailReporter.footer_0.
  intros h0 h1 h2 f0. rewrite !str_app_assoc. reflexivity.
Qed.

End RenderFacts.

(** C7, as the code has it.  The document depends on the entries and on
    the clock, and on the clock only through the generation time as it is
    printed: two calls on the same entries whose clock readings print alike
    give the same result, and two calls that give the same document had
    clock readings that print alike.  The renderer touches neither the
    network nor the file system: it is a function of its two arguments. *)
Theorem report_determined_by_entries_and_clock
    (now1 now2 : datetime) (entries : list BackupEntry) :
  (PyFmt.strftime now1 = PyFmt.strftime now2 ->
   EmailReporter._generate_html_report now1 entries
   = EmailReporter._generate_html_report now2 entries)
  /\ (forall document,
        EmailReporter._generate_html_report now1 entries = Ret document ->
        EmailReporter._generate_html_report now2 entries = Ret document ->
        PyFmt.strftime now1 = PyFmt.strftime now2).
Proof.
  split.
  - intros H. rewrite !report_shape, H. reflexivity.
  - intros document H1 H2. rewrite report_shape in H1, H2.
    destruct (EmailReporter.render_rows entries EmptyString) as [rows|e];
      [|discriminate].
    cbn [obind] in H1, H2. rewrite <- H2 in H1.
    apply Ret_inj, str_app_cancel_l, str_app_cancel_r in H1. exact H1.
Qed.

Lemma report_same_second :
  PyFmt.strftime Samples.new_year = PyFmt.strftime (Samples.new_year + 1)
  /\ EmailReporter._generate_html_report Samples.new_year []
     = EmailReporter._generate_html_report (Samples.new_year + 1) [].
Proof.
  assert (H : PyFmt.strftime Samples.new_year = PyFmt.strftime (Samples.new_year + 1))
    by reflexivity.
  split; [exact H|].
  exact (proj1 (report_determined_by_entries_and_clock
                  Samples.new_year (Samples.new_year + 1) []) H).
Defined.

(** Two calls on the same, empty, sequence of entries one second apart
    produce different documents. *)
Lemma report_differs_with_clock :
  EmailReporter._generate_html_report Samples.new_year []
  <> EmailReporter._generate_html_report (Samples.new_year + Samples.second) [].
Proof.
  intros H. rewrite !report_shape in H.
  cbn [obind EmailReporter.render_rows] in H.
  apply Ret_inj, str_app_cancel_l, str_app_cancel_r in H.
  vm_compute in H. discriminate H.
Qed.

(** ** Attach and detach *)

Create HintDb lifecycle.

Section LifecycleFacts.
Variable w : World.
Variable idx : nat.

Lemma unmount_calls_app tr1 tr2 :
  BackupsReporter.unmount_calls idx (tr1 ++ tr2)
  = (BackupsReporter.unmount_calls idx tr1 + BackupsReporter.unmount_calls idx tr2)%nat.
Proof.
  unfold BackupsReporter.unmount_calls. now rewrite filter_app, length_app.
Qed.

Lemma no_unmount_ret {A} (a : A) : Lifecycle.no_unmount idx (ret a).
Proof. intros tr. reflexivity. Qed.

Lemma no_unmount_raise {A} e : Lifecycle.no_unmount idx (@raise trace A e).
Proof. intros tr. reflexivity. Qed.

Lemma no_unmount_lift {A} (o : outcome A) : Lifecycle.no_unmount idx (lift o).
Proof. intros tr. reflexivity. Qed.

Lemma no_unmount_get : Lifecycle.no_unmount idx get.
Proof. intros tr. reflexivity. Qed.

Lemma no_unmount_bind {A B} (m : ST trace A) (k : A -> ST trace B) :
  Lifecycle.no_unmount idx m ->
  (forall a, Lifecycle.no_unmount idx (k a)) ->
  Lifecycle.no_unmount idx (bind m k).
Proof.
  intros Hm Hk tr. unfold bind. specialize (Hm tr).
  destruct (m tr) as [[a|e] tr1]; simpl in *.
  - now rewrite Hk.
  - exact Hm.
Qed.

Lemma no_unmount_try {A} (m : ST trace A) handles h :
  Lifecycle.no_unmount idx m ->
  (forall e, Lifecycle.no_unmount idx (h e)) ->
  Lifecycle.no_unmount idx (try_except m handles h).
Proof.
  intros Hm Hh tr. unfold try_except. specialize (Hm tr).
  destruct (m tr) as [[a|e] tr1]; simpl in *.
  - exact Hm.
  - destruct (handles e); simpl; [now rewrite Hh|exact Hm].
Qed.

Lemma no_unmount_for_each {X} (xs : list X) (body : X -> ST trace unit) :
  (forall x, Lifecycle.no_unmount idx (body x)) ->
  Lifecycle.no_unmount idx (for_each xs body).
Proof.
  intros H. induction xs as [|x xs IH]; simpl.
  - apply no_unmount_ret.
  - apply no_unmount_bind; [apply H|intros _; exact IH].
Qed.

Lemma no_unmount_emit ev :
  (forall i, ev <> BorgUnmount i) -> Lifecycle.no_unmount idx (emit ev).
Proof.
  intros H tr. unfold emit, modify. simpl.
  rewrite unmount_calls_app. unfold BackupsReporter.unmount_calls at 2. simpl.
  destruct ev; try (simpl; lia). now contradiction (H repo).
Qed.

Hint Resolve no_unmount_ret no_unmount_raise no_unmount_lift no_unmount_get : lifecycle.

Ltac quiet :=
  repeat first
    [ apply no_unmount_bind; [|intros ?]
    | apply no_unmount_try; [|intros ?]
    | apply no_unmount_for_each; intros ?
    | apply no_unmount_emit; intros ?; discriminate
    | solve [auto with lifecycle] ].

Lemma no_unmount_ping webhooks status message :
  Lifecycle.no_unmount idx (WebhookNotifier.ping w webhooks status message).
Proof.
  unfold WebhookNotifier.ping. quiet.
  unfold WebhookNotifier.send_one, WebhookNotifier.post,
    WebhookNotifier.raise_for_status.
  destruct (WebhookNotifier.is_healthcheck _); quiet;
    match goal with |- context [if ?b then _ else _] => destruct b end; quiet.
Qed.

Lemma no_unmount_notify c status message :
  Lifecycle.no_unmount idx (BackupsReporter.notify w c status message).
Proof.
  unfold BackupsReporter.notify.
  destruct (BackupsReporter.webhooks c); [apply no_unmount_ping|quiet].
Qed.

Lemma no_unmount_send_report c entries :
  Lifecycle.no_unmount idx (EmailReporter.send_report w c entries).
Proof. unfold EmailReporter.send_report. quiet. Qed.

Lemma no_unmount_mount i env r :
  Lifecycle.no_unmount idx (BorgRepository.mount i env r).
Proof.
  unfold BorgRepository.mount.
  destruct (BorgRepository.mkdtemp env); quiet.
  destruct (BorgRepository.mount_run env) as [[rc err]|e]; quiet.
Qed.

Lemma no_unmount_process_borg limit repos : forall i entries borg_repos,
  Lifecycle.no_unmount idx
    (BackupsReporter.process_borg limit i repos entries borg_repos).
Proof.
  induction repos as [|[c env] repos IH]; intros i entries borg_repos; simpl.
  - quiet.
  - apply no_unmount_bind; [apply no_unmount_mount|].
    intros [r ok]. destruct ok; apply IH.
Qed.

Lemma no_unmount_aggregate c :
  Lifecycle.no_unmount idx (BackupsReporter.aggregate c).
Proof.
  unfold BackupsReporter.aggregate.
  apply no_unmount_bind; [apply no_unmount_process_borg|].
  intros [entries borg_repos]. quiet.
Qed.

(** [unmount] is one call, and it returns whatever [borg umount] and
    [rmdir] do. *)
Lemma unmount_returns i env r tr :
  BorgRepository.unmount i env r tr = (Ret tt, tr ++ [BorgUnmount i]).
Proof.
  unfold BorgRepository.unmount, bind, emit, modify, try_except, lift, ret. simpl.
  destruct (BorgRepository.truthy _ && _); [|reflexivity].
  destruct (BorgRepository.umount_run env) as [[]|e]; [|reflexivity].
  destruct (BorgRepository.rmdir env) as [[]|e]; reflexivity.
Qed.

Lemma unmount_all_returns borg_repos : forall tr,
  exists tr',
    BackupsReporter.unmount_all borg_repos tr = (Ret tt, tr')
    /\ BackupsReporter.unmount_calls idx tr'
       = (BackupsReporter.unmount_calls idx tr
          + Lifecycle.occurrences idx borg_repos)%nat.
Proof.
  unfold BackupsReporter.unmount_all.
  induction borg_repos as [|[[i env] r] borg_repos IH]; intros tr; simpl.
  - exists tr. split; [reflexivity|]. unfold Lifecycle.occurrences. simpl. lia.
  - unfold bind at 1. rewrite unmount_returns.
    destruct (IH (tr ++ [BorgUnmount i])) as (tr' & -> & Hn).
    exists tr'. split; [reflexivity|].
    rewrite Hn, unmount_calls_app.
    unfold Lifecycle.occurrences, BackupsReporter.unmount_calls at 2. simpl.
    destruct (Nat.eqb i idx); simpl; lia.
Qed.

Lemma occurrences_app l1 l2 :
  Lifecycle.occurrences idx (l1 ++ l2)
  = (Lifecycle.occurrences idx l1 + Lifecycle.occurrences idx l2)%nat.
Proof. unfold Lifecycle.occurrences. now rewrite filter_app, length_app. Qed.

(** Every position is recorded at most once, and only if it attaches. *)
Lemma occurrences_mounted_from repos : forall first,
  Lifecycle.occurrences idx (Lifecycle.mounted_from first repos)
  = if (first <=? idx)%nat
    then match nth_error repos (idx - first) with
         | Some (_, env) => if Listing.attaches env then 1%nat else 0%nat
         | None => 0%nat
         end
    else 0%nat.
Proof.
  induction repos as [|[c env] repos IH]; intros first;
    cbn [Lifecycle.mounted_from].
  - destruct (first <=? idx)%nat; [|reflexivity].
    now destruct (idx - first)%nat.
  - rewrite occurrences_app, IH.
    unfold Lifecycle.occurrences at 1.
    destruct (Listing.attaches env) eqn:Ea; cbn [filter fst List.length];
      destruct (Nat.leb_spec first idx) as [Hle|Hgt],
               (Nat.leb_spec (S first) idx) as [Hle'|Hgt'],
               (Nat.eqb_spec first idx) as [Heq|Hne]; try lia;
      try (replace (idx - first)%nat with (S (idx - S first)) by lia; reflexivity);
      try reflexivity;
      subst first; rewrite Nat.sub_diag; cbn [nth_error]; rewrite Ea; reflexivity.
Qed.

End LifecycleFacts.

Section RunFacts.
Variable w : World.

Lemma count_after {A} idx (m : ST trace A) tr o tr' :
  Lifecycle.no_unmount idx m -> m tr = (o, tr') ->
  BackupsReporter.unmount_calls idx tr' = BackupsReporter.unmount_calls idx tr.
Proof. intros H E. specialize (H tr). now rewrite E in H. Qed.

(** The handler of [run] never returns normally. *)
Lemma run_handler_raises c e tr :
  exists e' tr',
    (BackupsReporter.notify w c "fail"
       ("Backups report generation failed: " ++ BackupsReporter.str_exn e) ;;;
     raise e) tr = (@Raise unit e', tr').
Proof.
  unfold bind.
  destruct (BackupsReporter.notify w c _ _ tr) as [[[]|e1] tr1];
    eexists _, _; reflexivity.
Qed.

(** On the path on which [run] returns normally every repository that
    attached is detached once, and no other repository is. *)
Lemma unmount_once_on_normal_return c tr0 tr idx :
  BackupsReporter.run w c tr0 = (Ret tt, tr) ->
  BackupsReporter.unmount_calls idx tr
  = (BackupsReporter.unmount_calls idx tr0
     + if Lifecycle.attached_at c idx then 1 else 0)%nat.
Proof.
  unfold BackupsReporter.run. unfold bind at 1.
  destruct (BackupsReporter.notify w c "start" _ tr0) as [[[]|e] tr1] eqn:N;
    [|discriminate].
  pose proof (count_after idx _ _ _ _ (no_unmount_notify w idx c _ _) N) as H1.
  unfold try_except.
  destruct (BackupsReporter.run_body w c tr1) as [[[]|e] tr2] eqn:B.
  - intros E. injection E as <-.
    unfold BackupsReporter.run_body in B. unfold bind at 1 in B.
    destruct (aggregate_result c tr1) as (mounted & tra & Ea & Hm).
    pose proof (count_after idx _ _ _ _ (no_unmount_aggregate idx c) Ea) as Ha.
    rewrite Ea in B. unfold bind at 1 in B.
    assert (Hs : exists trs,
               match BackupsReporter.email c with
               | Some email_config =>
                   EmailReporter.send_report w email_config
                     (slice_to (sort_desc (Listing.concatenation c))
                        (get_default (BackupsReporter.max_total_entries c) 100))
               | None => ret tt
               end tra = (Ret tt, trs)
               /\ BackupsReporter.unmount_calls idx trs
                  = BackupsReporter.unmount_calls idx tra).
    { destruct (BackupsReporter.email c) as [email_config|].
      - destruct (EmailReporter.send_report w email_config _ tra)
          as [[[]|e] trs] eqn:S; [|discriminate B].
        exists trs. split; [reflexivity|].
        exact (count_after idx _ _ _ _ (no_unmount_send_report w idx _ _) S).
      - exists tra. split; reflexivity. }
    destruct Hs as (trs & Es & Hs). rewrite Es in B.
    unfold bind at 1 in B.
    destruct (unmount_all_returns idx mounted trs) as (tru & Eu & Hu).
    rewrite Eu in B.
    pose proof (count_after idx _ _ _ _ (no_unmount_notify w idx c _ _) B) as Hn.
    rewrite Hn, Hu, Hs, Ha, H1, Hm, occurrences_mounted_from.
    unfold Lifecycle.attached_at. simpl. rewrite Nat.sub_0_r.
    destruct (nth_error (BackupsReporter.borg_repositories c) idx) as [[c' env]|];
      reflexivity.
  - unfold isinstance_Exception. cbv beta iota.
    destruct (run_handler_raises c e tr2) as (e' & tr' & ->). discriminate.
Qed.

(** When the SMTP server refuses the message, [run] raises and has not
    called [unmount] at all. *)
Lemma no_unmount_when_delivery_fails c email_config tr0 :
  BackupsReporter.email c = Some email_config ->
  (forall tr html, exists e, smtp_deliver w tr html = Raise e) ->
  exists e tr,
    BackupsReporter.run w c tr0 = (Raise e, tr)
    /\ forall idx,
         BackupsReporter.unmount_calls idx tr = BackupsReporter.unmount_calls idx tr0.
Proof.
  intros Hemail Hsmtp.
  assert (Hbody : forall tr1, exists e tr2,
             BackupsReporter.run_body w c tr1 = (Raise e, tr2)
             /\ forall idx, BackupsReporter.unmount_calls idx tr2
                            = BackupsReporter.unmount_calls idx tr1).
  { intros tr1. unfold BackupsReporter.run_body. unfold bind at 1.
    destruct (aggregate_result c tr1) as (mounted & tra & Ea & _).
    rewrite Ea, Hemail. unfold bind at 1.
    destruct (EmailReporter.send_report w email_config _ tra) as [[[]|e] trs] eqn:S.
    - exfalso. revert S.
      unfold EmailReporter.send_report, try_except, bind, get, lift, emit, modify, raise.
      simpl.
      destruct (EmailReporter._generate_html_report _ _) as [html|e]; simpl;
        [|discriminate].
      destruct (Hsmtp tra html) as [e ->]. simpl. discriminate.
    - exists e, trs. split; [reflexivity|]. intros idx.
      rewrite (count_after idx _ _ _ _ (no_unmount_send_report w idx _ _) S).
      exact (count_after idx _ _ _ _ (no_unmount_aggregate idx c) Ea). }
  unfold BackupsReporter.run. unfold bind at 1.
  destruct (BackupsReporter.notify w c "start" _ tr0) as [[[]|e] tr1] eqn:N.
  - destruct (Hbody tr1) as (e & tr2 & B & Hc).
    unfold try_except. rewrite B.
    unfold isinstance_Exception. cbv beta iota.
    unfold bind.
    destruct (BackupsReporter.notify w c "fail" _ tr2) as [[[]|e1] tr3] eqn:F;
      eexists _, tr3; (split; [reflexivity|]); intros idx;
      rewrite (count_after idx _ _ _ _ (no_unmount_notify w idx c _ _) F), Hc;
      exact (count_after idx _ _ _ _ (no_unmount_notify w idx c _ _) N).
  - exists e, tr1. split; [reflexivity|]. intros idx.
    exact (count_after idx _ _ _ _ (no_unmount_notify w idx c _ _) N).
Qed.

End RunFacts.

(** C1, at the input on which the code departs from it.  One repository
    attaches, the report is to be mailed and the SMTP server refuses the
    message: [send_report] raises again, the [except] clause of [run] sends
    the failure notification and raises, and the loop that unmounts, which
    stands after [send_report] inside the [try], is never reached.  The run
    ends with the exception and without one call of [unmount] on the
    attached repository. *)
Theorem unmount_skipped_when_delivery_fails :
  exists tr,
    BackupsReporter.run Samples.smtp_down Samples.config [] = (Raise SMTPException, tr)
    /\ Lifecycle.attached_at Samples.config 0 = true
    /\ In (BorgMount 0 "/srv/borg/nas" "/tmp/borg_nas_k3" None) tr
    /\ BackupsReporter.unmount_calls 0 tr = 0%nat.
Proof.
  eexists. split; [vm_compute; reflexivity|].
  split; [reflexivity|]. split; [|reflexivity].
  right. right. left. reflexivity.
Qed.

(** The same run with an SMTP server that accepts the message: the
    repository is detached once. *)
Example unmount_once_sample :
  exists tr,
    BackupsReporter.run Samples.calm Samples.config [] = (Ret tt, tr)
    /\ BackupsReporter.unmount_calls 0 tr = 1%nat.
Proof. eexists. split; [vm_compute; reflexivity|reflexivity]. Qed.

(** * Further properties of the code *)

(** ** What a cut keeps *)

Section CutFacts.

Lemma StronglySorted_app_pairs {A} (R : A -> A -> Prop) l1 : forall l2,
  StronglySorted R (l1 ++ l2) ->
  forall a b, In a l1 -> In b l2 -> R a b.
Proof.
  induction l1 as [|x l1 IH]; intros l2 Hs a b Ha Hb; [contradiction|].
  simpl in Hs. apply StronglySorted_inv in Hs. destruct Hs as [Hs Hall].
  destruct Ha as [->|Ha].
  - rewrite Forall_forall in Hall. apply Hall, in_or_app. now right.
  - eapply IH; eauto.
Qed.

(** Sorting and cutting keeps the newest entries: what is cut off is a
    rearrangement of the rest, none of it newer than anything kept. *)
Lemma slice_sort_keeps_newest l stop :
  exists dropped,
    Permutation l (slice_to (sort_desc l) stop ++ dropped)
    /\ Inventory.newest_kept (slice_to (sort_desc l) stop) dropped.
Proof.
  destruct (slice_to_firstn (sort_desc l) stop) as [n ->].
  exists (skipn n (sort_desc l)). split.
  - rewrite firstn_skipn. apply sort_desc_perm.
  - intros a b Ha Hb.
    apply (StronglySorted_app_pairs (fun a b => timestamp b <= timestamp a)
             (firstn n (sort_desc l)) (skipn n (sort_desc l)));
      try assumption.
    rewrite firstn_skipn. apply sort_desc_sorted.
Qed.

Lemma slice_sort_length l stop :
  0 <= stop ->
  List.length (slice_to (sort_desc l) stop) = Nat.min (Z.to_nat stop) (List.length l).
Proof.
  intros H. rewrite slice_to_nonneg by exact H.
  now rewrite length_firstn, sort_desc_length.
Qed.

End CutFacts.

(** ** The object store adapter *)

Section ObjectFacts.

Lemma for_each_append {X} (f : X -> BackupEntry) xs : forall entries,
  for_each xs (fun x => modify (fun es => es ++ [f x])) entries
  = (Ret tt, entries ++ map f xs).
Proof.
  induction xs as [|x xs IH]; intros entries; simpl.
  - unfold ret. now rewrite app_nil_r.
  - unfold bind, modify at 1. rewrite IH, <- app_assoc. reflexivity.
Qed.

Lemma collect_pages c pages : forall entries,
  for_each pages (S3Bucket.append_page c) entries
  = (Ret tt,
     entries ++ map (S3Bucket.object_entry c)
                  (flat_map (fun page => match page with
                                         | Some contents => contents
                                         | None => []
                                         end) pages)).
Proof.
  induction pages as [|page pages IH]; intros entries; cbn [for_each flat_map].
  - unfold ret. now rewrite app_nil_r.
  - unfold bind. destruct page as [contents|]; cbn [S3Bucket.append_page].
    + rewrite for_each_append, IH, map_app, app_assoc. reflexivity.
    + unfold ret. rewrite IH. reflexivity.
Qed.

Lemma list_objects_success env c limit :
  S3Bucket.paginate_error env = None ->
  S3Bucket.list_objects env c limit
  = slice_to (sort_desc (map (S3Bucket.object_entry c) (Inventory.all_objects env))) limit.
Proof.
  intros H. unfold S3Bucket.list_objects, S3Bucket.collect_objects, bind.
  rewrite collect_pages, H. reflexivity.
Qed.

End ObjectFacts.

(** X1. When the paginator does not raise, [list_objects] returns the
    [limit] newest objects of the bucket, or all of them if there are
    fewer: pages without a ['Contents'] key add nothing, the number of
    entries is the smaller of [limit] and the number of objects, the entries
    left out together with the entries returned are all the objects, and no
    entry left out is newer than an entry returned. *)
Theorem list_objects_returns_newest (env : S3Bucket.Env) (c : S3Bucket.Config)
    (limit : Z) :
  S3Bucket.paginate_error env = None ->
  0 <= limit ->
  let all := map (S3Bucket.object_entry c) (Inventory.all_objects env) in
  List.length (S3Bucket.list_objects env c limit)
  = Nat.min (Z.to_nat limit) (List.length (Inventory.all_objects env))
  /\ exists dropped,
       Permutation all (S3Bucket.list_objects env c limit ++ dropped)
       /\ Inventory.newest_kept (S3Bucket.list_objects env c limit) dropped.
Proof.
  intros Herr Hlimit all. rewrite (list_objects_success env c limit Herr). split.
  - rewrite slice_sort_length by exact Hlimit. now rewrite length_map.
  - apply slice_sort_keeps_newest.
Qed.

Lemma list_objects_returns_newest_sample :
  S3Bucket.paginate_error Samples.offsite_fifteen = None
  /\ 0 <= 10
  /\ List.length (S3Bucket.list_objects Samples.offsite_fifteen Samples.offsite 10)
     = Nat.min (Z.to_nat 10) (List.length (Inventory.all_objects Samples.offsite_fifteen)).
Proof.
  assert (H1 : S3Bucket.paginate_error Samples.offsite_fifteen = None) by reflexivity.
  assert (H2 : 0 <= 10) by lia.
  split; [exact H1|]. split; [exact H2|].
  exact (proj1 (list_objects_returns_newest Samples.offsite_fifteen Samples.offsite 10
                  H1 H2)).
Defined.

(** X2. The sequence that [run] reports holds the newest entries of all
    backends together: for a maximum that is a count, its length is the
    smaller of [max_total_entries] and the number of entries listed, the
    entries left out together with the entries reported are all the entries
    listed, and no entry left out is newer than an entry reported. *)
Theorem aggregate_keeps_newest (c : BackupsReporter.Config) (tr : trace) :
  0 <= get_default (BackupsReporter.max_total_entries c) 100 ->
  exists entries borg_repos tr' dropped,
    BackupsReporter.aggregate c tr = (Ret (entries, borg_repos), tr')
    /\ List.length entries
       = Nat.min (Z.to_nat (get_default (BackupsReporter.max_total_entries c) 100))
           (List.length (Listing.concatenation c))
    /\ Permutation (Listing.concatenation c) (entries ++ dropped)
    /\ Inventory.newest_kept entries dropped.
Proof.
  intros Hmax.
  destruct (aggregate_result c tr) as (mounted & tr' & E & _).
  destruct (slice_sort_keeps_newest (Listing.concatenation c)
              (get_default (BackupsReporter.max_total_entries c) 100))
    as (dropped & Hperm & Hnew).
  eexists _, mounted, tr', dropped. split; [exact E|]. split; [|split].
  - now apply slice_sort_length.
  - exact Hperm.
  - exact Hnew.
Qed.

Lemma aggregate_keeps_newest_sample :
  0 <= get_default (BackupsReporter.max_total_entries Samples.config) 100
  /\ exists entries : list BackupEntry,
       List.length entries
       = Nat.min (Z.to_nat (get_default (BackupsReporter.max_total_entries Samples.config)
                              100))
           (List.length (Listing.concatenation Samples.config)).
Proof.
  assert (H : 0 <= get_default (BackupsReporter.max_total_entries Samples.config) 100)
    by (simpl; lia).
  split; [exact H|].
  destruct (aggregate_keeps_newest Samples.config [] H)
    as (entries & _ & _ & _ & _ & Hlen & _).
  exists entries. exact Hlen.
Defined.

Section BoundFacts.

Lemma flat_map_length_bound {A} (f : A -> list BackupEntry) (k : Z) l :
  (forall x, Z.of_nat (List.length (f x)) <= k) ->
  Z.of_nat (List.length (flat_map f l)) <= k * Z.of_nat (List.length l).
Proof.
  intros H. induction l as [|x l IH]; simpl; [lia|].
  rewrite length_app. specialize (H x). lia.
Qed.

Lemma of_borg_length limit b :
  0 <= limit -> Z.of_nat (List.length (Listing.of_borg limit b)) <= limit.
Proof.
  intros H. unfold Listing.of_borg.
  destruct (Listing.attaches (snd b)); [now apply list_archives_length|simpl; lia].
Qed.

End BoundFacts.

(** X3. No backend hands more than [entries_per_source] entries to the
    merge: for a limit that is a count, the list that [run] sorts has at
    most [entries_per_source] entries (10 when the key is absent) for each
    configured backend. *)
Theorem concatenation_bounded_per_source (c : BackupsReporter.Config) :
  0 <= get_default (BackupsReporter.entries_per_source c) 10 ->
  Z.of_nat (List.length (Listing.concatenation c))
  <= get_default (BackupsReporter.entries_per_source c) 10
     * Z.of_nat (Inventory.backends c).
Proof.
  intros H. unfold Listing.concatenation, Inventory.backends.
  rewrite length_app, !Nat2Z.inj_add.
  pose proof (flat_map_length_bound
                (Listing.of_borg (get_default (BackupsReporter.entries_per_source c) 10))
                (get_default (BackupsReporter.entries_per_source c) 10)
                (BackupsReporter.borg_repositories c)
                (fun b => of_borg_length _ b H)).
  pose proof (flat_map_length_bound
                (Listing.of_s3 (get_default (BackupsReporter.entries_per_source c) 10))
                (get_default (BackupsReporter.entries_per_source c) 10)
                (BackupsReporter.s3_buckets c)
                (fun b => list_objects_length (snd b) (fst b) _ H)).
  lia.
Qed.

Lemma concatenation_bounded_sample :
  0 <= get_default (BackupsReporter.entries_per_source Samples.config) 10
  /\ Z.of_nat (List.length (Listing.concatenation Samples.config))
     <= get_default (BackupsReporter.entries_per_source Samples.config) 10
        * Z.of_nat (Inventory.backends Samples.config).
Proof.
  assert (H : 0 <= get_default (BackupsReporter.entries_per_source Samples.config) 10)
    by (simpl; lia).
  split; [exact H|].
  exact (concatenation_bounded_per_source Samples.config H).
Defined.

(** ** What the entries stand for *)

Section WellformedFacts.

Lemma for_each_invariant_in {S X} (I : S -> Prop) (body : X -> ST S unit) xs :
  (forall x, In x xs -> forall s, I s -> I (snd (body x s))) ->
  forall s, I s -> I (snd (for_each xs body s)).
Proof.
  induction xs as [|x xs IH]; intros Hbody s Hs; simpl.
  - exact Hs.
  - unfold bind. pose proof (Hbody x (or_introl eq_refl) s Hs) as Hx.
    destruct (body x s) as [[[]|e] s']; simpl in *.
    + apply IH; [|exact Hx]. intros y Hy. apply Hbody. now right.
    + exact Hx.
Qed.

(** The entry that the loop of [list_archives] makes of an item. *)
Lemma archive_entry_made mp c item entry :
  BorgRepository.archive_entry mp c item = Ret (Some entry) ->
  source entry = ("borg:" ++ BorgRepository.name c)%string
  /\ type entry = "borg_archive"%string
  /\ BorgRepository.is_dir item = Ret true
  /\ BorgRepository.stat_mtime item = Ret (timestamp entry)
  /\ name entry = BorgRepository.item_name item
  /\ if BorgRepository.calculate_sizes c
     then exists n,
            size entry = Some n
            /\ BorgRepository._calculate_directory_size
                 (mp ++ "/" ++ BorgRepository.item_name item)
                 (BorgRepository.scannable item) (BorgRepository.contents item)
               = Ret n
     else size entry = None.
Proof.
  unfold BorgRepository.archive_entry, obind.
  destruct (BorgRepository.is_dir item) as [[]|]; try discriminate.
  destruct (BorgRepository.stat_mtime item) as [mtime|]; try discriminate.
  destruct (BorgRepository.calculate_sizes c).
  - destruct (BorgRepository._calculate_directory_size _ _ _) as [n|] eqn:En;
      try discriminate.
    intros H. apply Ret_inj in H. injection H as <-. cbn.
    repeat split. exists n. split; reflexivity.
  - intros H. apply Ret_inj in H. injection H as <-. cbn. repeat split.
Qed.

Lemma list_archives_wellformed env r limit :
  Forall (Wellformed.archive_entry_of env r) (BorgRepository.list_archives env r limit).
Proof.
  unfold BorgRepository.list_archives.
  destruct (BorgRepository.mount_point r) as [mp|] eqn:Emp; [|constructor].
  destruct (String.eqb mp EmptyString); [constructor|].
  destruct (BorgRepository.collect_archives mp env (BorgRepository.config r) [])
    as [[[]|e] entries] eqn:E; [|constructor].
  apply Forall_slice_sort.
  change entries with (snd (Ret tt, entries) : list BackupEntry).
  rewrite <- E. unfold BorgRepository.collect_archives, bind.
  match goal with
  | |- Forall _ (snd (match ?m with _ => _ end)) =>
      assert (H : Forall (Wellformed.archive_entry_of env r) (snd m));
        [|destruct m as [[[]|e0] s]; simpl in *;
          [destruct (BorgRepository.iterdir_error env)|]; exact H]
  end.
  apply for_each_invariant_in
    with (I := Forall (Wellformed.archive_entry_of env r)); [|constructor].
  intros item Hitem s Hs. unfold BorgRepository.append_archive, bind, lift.
  destruct (BorgRepository.archive_entry mp (BorgRepository.config r) item)
    as [[entry|]|e0] eqn:Ea; simpl; try exact Hs.
  apply Forall_app; split; [exact Hs|]. constructor; [|constructor].
  destruct (archive_entry_made _ _ _ _ Ea) as (H1 & H2 & H3 & H4 & H5 & H6).
  split; [exact H1|]. split; [exact H2|].
  exists item, mp. repeat split; assumption.
Qed.

Lemma list_objects_wellformed env c limit :
  Forall (Wellformed.object_entry_of env c) (S3Bucket.list_objects env c limit).
Proof.
  destruct (S3Bucket.paginate_error env) as [e|] eqn:E.
  - rewrite object_listing_fails; [constructor|]. exists e. exact E.
  - rewrite (list_objects_success env c limit E).
    apply Forall_slice_sort, Forall_forall. intros e He.
    apply in_map_iff in He. destruct He as (obj & <- & Hobj).
    exists obj. split; [exact Hobj|reflexivity].
Qed.

End WellformedFacts.

(** X4. Every entry that [list_archives] returns stands for a child
    directory of the mount point: it has the source [borg:<name>] and the
    type [borg_archive], the name and the modification time of an item for
    which [is_dir] holds, and its size is the result of the scan of that
    directory when [calculate_sizes] is set and absent when it is not. *)
Theorem list_archives_entries_are_directories (env : BorgRepository.Env)
    (r : BorgRepository.t) (limit : Z) (e : BackupEntry) :
  In e (BorgRepository.list_archives env r limit) ->
  Wellformed.archive_entry_of env r e.
Proof.
  intros H. pose proof (list_archives_wellformed env r limit) as Hall.
  rewrite Forall_forall in Hall. now apply Hall.
Qed.

Lemma list_archives_entries_sample :
  let monday := mkBackupEntry "borg:nas" "monday" Samples.new_year (Some 123)
                  "borg_archive" in
  In monday (BorgRepository.list_archives Samples.nas_up
               (Listing.after_mount Samples.nas Samples.nas_up) 10)
  /\ Wellformed.archive_entry_of Samples.nas_up
       (Listing.after_mount Samples.nas Samples.nas_up) monday.
Proof.
  intros monday.
  assert (H : In monday (BorgRepository.list_archives Samples.nas_up
                           (Listing.after_mount Samples.nas Samples.nas_up) 10))
    by (right; left; reflexivity).
  split; [exact H|].
  exact (list_archives_entries_are_directories _ _ _ _ H).
Defined.

(** X5. Every entry that [list_objects] returns stands for an object that
    the paginator yielded: its source is [s3:<name>], its name the key, its
    timestamp the last modification, its size the size of the object and
    its type [s3_object]. *)
Theorem list_objects_entries_are_objects (env : S3Bucket.Env) (c : S3Bucket.Config)
    (limit : Z) (e : BackupEntry) :
  In e (S3Bucket.list_objects env c limit) ->
  exists obj,
    In obj (Inventory.all_objects env)
    /\ source e = ("s3:" ++ S3Bucket.name c)%string
    /\ name e = S3Bucket.Key obj
    /\ timestamp e = S3Bucket.LastModified obj
    /\ size e = Some (S3Bucket.Size obj)
    /\ type e = "s3_object"%string.
Proof.
  intros H. pose proof (list_objects_wellformed env c limit) as Hall.
  rewrite Forall_forall in Hall. destruct (Hall e H) as (obj & Hobj & ->).
  exists obj. repeat split. exact Hobj.
Qed.

Lemma list_objects_entries_sample :
  let dump := mkBackupEntry "s3:offsite" "db.dump" Samples.new_year (Some 1048576)
                "s3_object" in
  In dump (S3Bucket.list_objects Samples.offsite_one Samples.offsite 10)
  /\ exists obj,
       In obj (Inventory.all_objects Samples.offsite_one)
       /\ source dump = ("s3:" ++ S3Bucket.name Samples.offsite)%string
       /\ name dump = S3Bucket.Key obj
       /\ timestamp dump = S3Bucket.LastModified obj
       /\ size dump = Some (S3Bucket.Size obj)
       /\ type dump = "s3_object"%string.
Proof.
  intros dump.
  assert (H : In dump (S3Bucket.list_objects Samples.offsite_one Samples.offsite 10))
    by (left; reflexivity).
  split; [exact H|].
  exact (list_objects_entries_are_objects _ _ _ _ H).
Defined.

(** X6. The report colours a row by the adapter its entry comes from:
    [source_class] is [borg] for every entry of [list_archives] and [s3]
    for every entry of [list_objects], whatever the names of the
    backends. *)
Theorem source_class_follows_adapter :
  (forall env r limit e,
      In e (BorgRepository.list_archives env r limit) ->
      EmailReporter.source_class e = "borg"%string)
  /\ (forall env c limit e,
         In e (S3Bucket.list_objects env c limit) ->
         EmailReporter.source_class e = "s3"%string).
Proof.
  split.
  - intros env r limit e H.
    pose proof (list_archives_wellformed env r limit) as Hall.
    rewrite Forall_forall in Hall. destruct (Hall e H) as (Hs & _).
    unfold EmailReporter.source_class, PyStr.startswith. rewrite Hs. cbn.
    destruct (BorgRepository.name (BorgRepository.config r)); reflexivity.
  - intros env c limit e H.
    pose proof (list_objects_wellformed env c limit) as Hall.
    rewrite Forall_forall in Hall. destruct (Hall e H) as (obj & _ & ->).
    reflexivity.
Qed.

Lemma source_class_sample :
  In (mkBackupEntry "s3:offsite" "db.dump" Samples.new_year (Some 1048576) "s3_object")
    (S3Bucket.list_objects Samples.offsite_one Samples.offsite 10)
  /\ EmailReporter.source_class
       (mkBackupEntry "s3:offsite" "db.dump" Samples.new_year (Some 1048576) "s3_object")
     = "s3"%string.
Proof.
  assert (H : In (mkBackupEntry "s3:offsite" "db.dump" Samples.new_year (Some 1048576)
                    "s3_object")
                (S3Bucket.list_objects Samples.offsite_one Samples.offsite 10))
    by (left; reflexivity).
  split; [exact H|].
  exact (proj2 source_class_follows_adapter _ _ _ _ H).
Defined.

(** ** Bounds of the size scan *)

Section ScanBounds.

Lemma sum_nonneg l : Forall (fun n => 0 <= n) l -> 0 <= Tree.sum l.
Proof.
  unfold Tree.sum. induction 1 as [|x l Hx _ IH]; simpl; lia.
Qed.

Lemma file_sizes_nonneg files :
  Bytes.files_nonneg files -> Forall (fun n => 0 <= n) (Tree.file_sizes files).
Proof.
  unfold Bytes.files_nonneg, Tree.file_sizes.
  induction 1 as [|[fname [n|e]] files Hf _ IH]; simpl; auto.
Qed.

Lemma walk_sizes_nonneg steps :
  Forall (fun step => Bytes.files_nonneg (snd step)) steps ->
  Forall (fun n => 0 <= n) (Tree.walk_sizes steps).
Proof.
  unfold Tree.walk_sizes.
  induction 1 as [|step steps Hs _ IH]; simpl; [constructor|].
  apply Forall_app. split; [now apply file_sizes_nonneg|exact IH].
Qed.

(** One file moves the total up by at most its size, and never down. *)
Lemma count_file_bounds f c :
  match snd f with Ret n => 0 <= n | Raise _ => True end ->
  BorgRepository.total_size c
  <= BorgRepository.total_size (snd (BorgRepository.count_file f c))
  <= BorgRepository.total_size c + Tree.sum (Tree.file_sizes [f]).
Proof.
  unfold BorgRepository.count_file, try_except, bind, lift, modify, Tree.file_sizes,
    Tree.sum.
  destruct f as [fname [n|e]]; simpl; intros H; [lia|].
  destruct (isinstance_OSError e); simpl; lia.
Qed.

Lemma scan_files_bounds files : forall c,
  Bytes.files_nonneg files ->
  BorgRepository.total_size c
  <= BorgRepository.total_size (snd (for_each files BorgRepository.count_file c))
  <= BorgRepository.total_size c + Tree.sum (Tree.file_sizes files).
Proof.
  induction files as [|f files IH]; intros c H; cbn [for_each].
  - unfold ret, Tree.file_sizes, Tree.sum. simpl. lia.
  - apply Forall_cons_iff in H. destruct H as [Hf Hfiles].
    pose proof (count_file_bounds f c Hf) as Hb.
    pose proof (sum_nonneg _ (file_sizes_nonneg files Hfiles)) as Hrest.
    rewrite (file_sizes_cons f files), sum_app.
    unfold bind.
    destruct (BorgRepository.count_file f c) as [[[]|e] c1]; cbn [snd] in *.
    + specialize (IH c1 Hfiles). lia.
    + lia.
Qed.

Lemma scan_walk_bounds steps : forall c,
  Forall (fun step => Bytes.files_nonneg (snd step)) steps ->
  BorgRepository.total_size c
  <= BorgRepository.total_size (snd (BorgRepository.scan_walk steps c))
  <= BorgRepository.total_size c + Tree.sum (Tree.walk_sizes steps).
Proof.
  unfold BorgRepository.scan_walk.
  induction steps as [|step steps IH]; intros c H; cbn [for_each].
  - unfold ret, Tree.walk_sizes, Tree.sum. simpl. lia.
  - apply Forall_cons_iff in H. destruct H as [Hs Hsteps].
    pose proof (scan_files_bounds (snd step) c Hs) as Hb.
    pose proof (sum_nonneg _ (walk_sizes_nonneg steps Hsteps)) as Hrest.
    assert (Hsplit : Tree.sum (Tree.walk_sizes (step :: steps))
                     = Tree.sum (Tree.file_sizes (snd step))
                       + Tree.sum (Tree.walk_sizes steps)).
    { rewrite <- sum_app. reflexivity. }
    rewrite Hsplit. unfold bind.
    destruct (for_each (snd step) BorgRepository.count_file c) as [[[]|e] c1];
      cbn [snd] in *.
    + specialize (IH c1 Hsteps). lia.
    + lia.
Qed.

Lemma filenames_nonneg children :
  forallb Bytes.sizes_nonneg children = true ->
  Bytes.files_nonneg (BorgRepository.filenames children).
Proof.
  unfold Bytes.files_nonneg.
  induction children as [|c children IH]; simpl; intros H; [constructor|].
  apply andb_prop in H. destruct H as [Hc H].
  apply Forall_app. split; [|now apply IH].
  destruct c as [f [n|e]|d r cs]; repeat constructor.
  simpl in *. now apply Z.leb_le.
Qed.

Lemma walk_node_nonneg n : forall root,
  Bytes.sizes_nonneg n = true ->
  Forall (fun step => Bytes.files_nonneg (snd step)) (BorgRepository.walk_node root n).
Proof.
  induction n as [f g|d r children IH] using fs_node_induction; intros root H;
    [constructor|].
  destruct r; [|constructor].
  cbn [BorgRepository.walk_node Bytes.sizes_nonneg] in *.
  constructor; [now apply filenames_nonneg|].
  revert H. induction IH as [|c children Hc _ IHc]; simpl; intros H; [constructor|].
  apply andb_prop in H. destruct H as [H1 H2].
  apply Forall_app. split; [now apply Hc|now apply IHc].
Qed.

Lemma walk_nonneg top readable children :
  Bytes.sizes_nonneg (BorgRepository.Dir top readable children) = true ->
  Forall (fun step => Bytes.files_nonneg (snd step))
    (BorgRepository.walk top readable children).
Proof.
  intros H. unfold BorgRepository.walk. cbn [Bytes.sizes_nonneg] in H.
  destruct readable; [|constructor].
  constructor; [now apply filenames_nonneg|].
  induction children as [|c children IH]; simpl in *; [constructor|].
  apply andb_prop in H. destruct H as [H1 H2].
  apply Forall_app. split; [now apply walk_node_nonneg|now apply IH].
Qed.

End ScanBounds.

(** X7. The size scan never counts too much: when the files report sizes
    that are not negative, then whatever exceptions the files raise, also
    one that ends the scan early, the count returned lies between 0 and the
    sum of the sizes of the accessible files. *)
Theorem scan_between_zero_and_accessible_total (directory_path : string)
    (readable : bool) (children : list BorgRepository.fs_node) :
  Bytes.sizes_nonneg (BorgRepository.Dir directory_path readable children) = true ->
  exists n,
    BorgRepository._calculate_directory_size directory_path readable children = Ret n
    /\ 0 <= n
       <= Tree.sum (Tree.accessible_sizes
                      (BorgRepository.Dir directory_path readable children)).
Proof.
  intros H.
  pose proof (scan_walk_bounds (BorgRepository.walk directory_path readable children)
                (BorgRepository.mkCounters 0 0)
                (walk_nonneg directory_path readable children H)) as Hb.
  rewrite walk_total in Hb. cbn [BorgRepository.total_size] in Hb.
  unfold BorgRepository._calculate_directory_size, try_except.
  destruct (BorgRepository.scan_walk _ _) as [[[]|e] c]; cbn [snd] in Hb;
    cbn [isinstance_Exception obind ret fst snd];
    (eexists; split; [reflexivity|]); cbn [BorgRepository.total_size]; lia.
Qed.

Lemma scan_between_sample :
  Bytes.sizes_nonneg
    (BorgRepository.Dir "/mnt" true
       [BorgRepository.File "a" (Ret 5);
        BorgRepository.File "b" (Raise RuntimeError);
        BorgRepository.File "c" (Ret 7)]) = true
  /\ exists n,
       BorgRepository._calculate_directory_size "/mnt" true
         [BorgRepository.File "a" (Ret 5);
          BorgRepository.File "b" (Raise RuntimeError);
          BorgRepository.File "c" (Ret 7)] = Ret n
       /\ 0 <= n
          <= Tree.sum (Tree.accessible_sizes
                         (BorgRepository.Dir "/mnt" true
                            [BorgRepository.File "a" (Ret 5);
                             BorgRepository.File "b" (Raise RuntimeError);
                             BorgRepository.File "c" (Ret 7)])).
Proof.
  assert (H : Bytes.sizes_nonneg
                (BorgRepository.Dir "/mnt" true
                   [BorgRepository.File "a" (Ret 5);
                    BorgRepository.File "b" (Raise RuntimeError);
                    BorgRepository.File "c" (Ret 7)]) = true) by reflexivity.
  split; [exact H|].
  exact (scan_between_zero_and_accessible_total _ _ _ H).
Defined.

(** ** Attach and detach, on every path *)

(** X8. [mount] never raises.  It returns [True] exactly when the
    attachment point could be made and [borg mount] came back with status
    0; a timeout, another exception or another status give [False].  The
    attachment point is assigned to [mount_point] as soon as it is made,
    also when [borg mount] fails afterwards, and [borg mount] is run at
    most once. *)
Theorem mount_reports_failure_as_false (idx : nat) (env : BorgRepository.Env)
    (c : BorgRepository.Config) (tr : trace) :
  exists r ok tr',
    BorgRepository.mount idx env (BorgRepository.init c) tr = (Ret (r, ok), tr')
    /\ (ok = true <->
        exists mp stderr,
          BorgRepository.mkdtemp env = Ret mp
          /\ BorgRepository.mount_run env = Ret (0, stderr))
    /\ (forall mp, BorgRepository.mkdtemp env = Ret mp ->
                   BorgRepository.mount_point r = Some mp
                   /\ tr' = tr ++ [BorgMount idx (BorgRepository.repository c) mp
                                     (BorgRepository.borg_rsh c)])
    /\ (forall e, BorgRepository.mkdtemp env = Raise e ->
                  BorgRepository.mount_point r = None /\ tr' = tr).
Proof.
  unfold BorgRepository.mount.
  destruct (BorgRepository.mkdtemp env) as [mp|e].
  - unfold bind, emit, modify, ret. cbn [BorgRepository.init BorgRepository.config].
    destruct (BorgRepository.mount_run env) as [[rc err]|e].
    + eexists _, _, _. split; [reflexivity|]. split; [|split].
      * split.
        -- intros H. apply Z.eqb_eq in H. subst rc. eauto.
        -- intros (mp' & err' & _ & H). injection H as -> _. reflexivity.
      * intros mp' H. injection H as <-. split; reflexivity.
      * intros e H. discriminate.
    + eexists _, _, _. split; [reflexivity|]. split; [|split].
      * split; [discriminate|]. intros (mp' & err' & _ & H). discriminate.
      * intros mp' H. injection H as <-. split; reflexivity.
      * intros e' H. discriminate.
  - eexists _, _, _. split; [reflexivity|]. split; [|split].
    + split; [discriminate|]. intros (mp' & err' & H & _). discriminate.
    + intros mp' H. discriminate.
    + intros e' _. split; reflexivity.
Qed.

Lemma mount_sample :
  BorgRepository.mkdtemp Samples.nas_timeout = Ret "/tmp/borg_nas_k4"%string
  /\ exists r,
       BorgRepository.mount_point r = Some "/tmp/borg_nas_k4"%string
       /\ fst (BorgRepository.mount 0 Samples.nas_timeout
                 (BorgRepository.init Samples.nas) [])
          = Ret (r, false).
Proof.
  assert (H : BorgRepository.mkdtemp Samples.nas_timeout = Ret "/tmp/borg_nas_k4"%string)
    by reflexivity.
  split; [exact H|].
  destruct (mount_reports_failure_as_false 0 Samples.nas_timeout Samples.nas [])
    as (r & ok & tr' & E & _ & Hmp & _).
  destruct (Hmp _ H) as [Hpoint _].
  exists r. split; [exact Hpoint|].
  rewrite E. cbn [fst].
  revert E. vm_compute. intros E. injection E as _ <- _. reflexivity.
Defined.

(** X9. [unmount] never raises: whether the mount point is still there or
    not, and whatever [borg umount] and [rmdir] do (a timeout, an error),
    the call returns normally. *)
Theorem unmount_never_raises (idx : nat) (env : BorgRepository.Env)
    (r : BorgRepository.t) (tr : trace) :
  BorgRepository.unmount idx env r tr = (Ret tt, tr ++ [BorgUnmount idx]).
Proof. apply unmount_returns. Qed.

Section UnmountOnEveryPath.
Variable w : World.
Variable idx : nat.

(** The [try] block either does not reach the loop that unmounts, or goes
    through all of it. *)
Lemma run_body_unmounts c tr1 :
  exists k,
    BackupsReporter.unmount_calls idx (snd (BackupsReporter.run_body w c tr1))
    = (BackupsReporter.unmount_calls idx tr1 + k)%nat
    /\ (k = 0%nat \/ k = if Lifecycle.attached_at c idx then 1%nat else 0%nat).
Proof.
  unfold BackupsReporter.run_body. unfold bind at 1.
  destruct (aggregate_result c tr1) as (mounted & tra & Ea & Hm).
  pose proof (count_after idx _ _ _ _ (no_unmount_aggregate idx c) Ea) as Ha.
  rewrite Ea. unfold bind at 1.
  set (deliver := match BackupsReporter.email c with
                  | Some email_config =>
                      EmailReporter.send_report w email_config
                        (slice_to (sort_desc (Listing.concatenation c))
                           (get_default (BackupsReporter.max_total_entries c) 100))
                  | None => ret tt
                  end).
  assert (Hs : forall o trs,
             deliver tra = (o, trs) ->
             BackupsReporter.unmount_calls idx trs
             = BackupsReporter.unmount_calls idx tra).
  { intros o trs. unfold deliver.
    destruct (BackupsReporter.email c) as [email_config|].
    - apply count_after, no_unmount_send_report.
    - intros E. injection E as _ <-. reflexivity. }
  destruct (deliver tra) as [[[]|e] trs] eqn:Es.
  - unfold bind at 1.
    destruct (unmount_all_returns idx mounted trs) as (tru & Eu & Hu).
    rewrite Eu.
    exists (Lifecycle.occurrences idx mounted). split.
    + rewrite (no_unmount_notify w idx c _ _ tru), Hu, (Hs _ _ eq_refl), Ha.
      reflexivity.
    + right. rewrite Hm, occurrences_mounted_from.
      unfold Lifecycle.attached_at. simpl. rewrite Nat.sub_0_r.
      destruct (nth_error (BackupsReporter.borg_repositories c) idx) as [[c' env]|];
        reflexivity.
  - exists 0%nat. cbn [snd]. split; [|now left].
    rewrite (Hs _ _ eq_refl), Ha. lia.
Qed.

End UnmountOnEveryPath.

(** X10. On every path through [run], with or without an exception, a
    repository is unmounted at most once, and never when it did not attach;
    when [run] returns normally, every repository that attached has been
    unmounted exactly once. *)
Theorem run_unmounts_at_most_once (w : World) (c : BackupsReporter.Config)
    (tr0 : trace) (idx : nat) :
  let attached := if Lifecycle.attached_at c idx then 1%nat else 0%nat in
  let calls tr := (BackupsReporter.unmount_calls idx tr
                   - BackupsReporter.unmount_calls idx tr0)%nat in
  (BackupsReporter.unmount_calls idx tr0
   <= BackupsReporter.unmount_calls idx (snd (BackupsReporter.run w c tr0)))%nat
  /\ (calls (snd (BackupsReporter.run w c tr0)) <= attached)%nat
  /\ (fst (BackupsReporter.run w c tr0) = Ret tt ->
      calls (snd (BackupsReporter.run w c tr0)) = attached).
Proof.
  intros attached calls.
  assert (Hret : fst (BackupsReporter.run w c tr0) = Ret tt ->
                 calls (snd (BackupsReporter.run w c tr0)) = attached).
  { intros H. destruct (BackupsReporter.run w c tr0) as [o tr] eqn:E.
    cbn [fst snd] in *. subst o. unfold calls.
    rewrite (unmount_once_on_normal_return w c tr0 tr idx E). fold attached. lia. }
  assert (Hany : exists k,
             BackupsReporter.unmount_calls idx (snd (BackupsReporter.run w c tr0))
             = (BackupsReporter.unmount_calls idx tr0 + k)%nat
             /\ (k <= attached)%nat).
  { unfold BackupsReporter.run. unfold bind at 1.
    destruct (BackupsReporter.notify w c "start" _ tr0) as [[[]|e] tr1] eqn:N.
    - pose proof (count_after idx _ _ _ _ (no_unmount_notify w idx c _ _) N) as H1.
      destruct (run_body_unmounts w idx c tr1) as (k & Hk & Hcase).
      exists k. split; [|destruct Hcase as [->| ->]; unfold attached; lia].
      unfold try_except.
      destruct (BackupsReporter.run_body w c tr1) as [[[]|e] tr2]; cbn [snd] in Hk.
      + cbn [snd]. lia.
      + unfold isinstance_Exception. cbv beta iota.
        pose proof (no_unmount_bind idx
                      (BackupsReporter.notify w c "fail"
                         ("Backups report generation failed: "
                            ++ BackupsReporter.str_exn e))
                      (fun _ => @raise trace unit e)
                      (no_unmount_notify w idx c _ _)
                      (fun _ => no_unmount_raise idx e) tr2) as Hh.
        rewrite Hh. lia.
    - exists 0%nat. cbn [snd]. split; [|lia].
      rewrite (count_after idx _ _ _ _ (no_unmount_notify w idx c _ _) N). lia. }
  destruct Hany as (k & Hk & Hle). unfold calls.
  split; [lia|]. split; [lia|exact Hret].
Qed.

Lemma run_unmounts_sample :
  fst (BackupsReporter.run Samples.calm Samples.config []) = Ret tt
  /\ (BackupsReporter.unmount_calls 0 (snd (BackupsReporter.run Samples.calm Samples.config []))
      - BackupsReporter.unmount_calls 0 [])%nat
     = if Lifecycle.attached_at Samples.config 0 then 1%nat else 0%nat.
Proof.
  assert (H : fst (BackupsReporter.run Samples.calm Samples.config []) = Ret tt)
    by (vm_compute; reflexivity).
  split; [exact H|].
  exact (proj2 (proj2 (run_unmounts_at_most_once Samples.calm Samples.config [] 0)) H).
Defined.

(** ** Notifications of a run *)

Section KeepsFacts.
Context {T : Type} (obs : trace -> T).

Lemma keeps_ret {A} (a : A) : Step.keeps obs (ret a).
Proof. intros tr. reflexivity. Qed.

Lemma keeps_raise {A} e : Step.keeps obs (@raise trace A e).
Proof. intros tr. reflexivity. Qed.

Lemma keeps_lift {A} (o : outcome A) : Step.keeps obs (lift o).
Proof. intros tr. reflexivity. Qed.

Lemma keeps_get : Step.keeps obs get.
Proof. intros tr. reflexivity. Qed.

Lemma keeps_bind {A B} (m : ST trace A) (k : A -> ST trace B) :
  Step.keeps obs m -> (forall a, Step.keeps obs (k a)) -> Step.keeps obs (bind m k).
Proof.
  intros Hm Hk tr. unfold bind. specialize (Hm tr).
  destruct (m tr) as [[a|e] tr1]; simpl in *.
  - now rewrite Hk.
  - exact Hm.
Qed.

Lemma keeps_try {A} (m : ST trace A) handles h :
  Step.keeps obs m -> (forall e, Step.keeps obs (h e)) ->
  Step.keeps obs (try_except m handles h).
Proof.
  intros Hm Hh tr. unfold try_except. specialize (Hm tr).
  destruct (m tr) as [[a|e] tr1]; simpl in *.
  - exact Hm.
  - destruct (handles e); simpl; [now rewrite Hh|exact Hm].
Qed.

Lemma keeps_for_each {X} (xs : list X) (body : X -> ST trace unit) :
  (forall x, Step.keeps obs (body x)) -> Step.keeps obs (for_each xs body).
Proof.
  intros H. induction xs as [|x xs IH]; simpl.
  - apply keeps_ret.
  - apply keeps_bind; [apply H|intros _; exact IH].
Qed.

Lemma keeps_emit ev :
  (forall tr, obs (tr ++ [ev]) = obs tr) -> Step.keeps obs (emit ev).
Proof. intros H tr. apply H. Qed.

End KeepsFacts.

Section PostFacts.
Variable w : World.







Hypothesis Htransport : transport_failures_only w.




End PostFacts.

Section SentFacts.
Variable w : World.

Lemma sent_app tr1 tr2 : Notify.sent (tr1 ++ tr2) = Notify.sent tr1 ++ Notify.sent tr2.
Proof. apply flat_map_app. Qed.

Lemma sent_snoc tr ev :
  (forall url body, ev <> HttpPost url body) ->
  Notify.sent (tr ++ [ev]) = Notify.sent tr.
Proof.
  intros H. rewrite sent_app. destruct ev; simpl; try apply app_nil_r.
  now contradiction (H url body).
Qed.

Lemma quiet_mount i env r : Step.keeps Notify.sent (BorgRepository.mount i env r).
Proof.
  unfold BorgRepository.mount.
  destruct (BorgRepository.mkdtemp env); [|apply keeps_ret].
  apply keeps_bind.
  - apply keeps_emit. intros tr. apply sent_snoc. discriminate.
  - intros _. destruct (BorgRepository.mount_run env) as [[rc err]|e]; apply keeps_ret.
Qed.

Lemma quiet_process_borg limit repos : forall i entries borg_repos,
  Step.keeps Notify.sent (BackupsReporter.process_borg limit i repos entries borg_repos).
Proof.
  induction repos as [|[c env] repos IH]; intros i entries borg_repos; simpl.
  - apply keeps_ret.
  - apply keeps_bind; [apply quiet_mount|].
    intros [r ok]. destruct ok; apply IH.
Qed.

Lemma quiet_aggregate c : Step.keeps Notify.sent (BackupsReporter.aggregate c).
Proof.
  unfold BackupsReporter.aggregate.
  apply keeps_bind; [apply quiet_process_borg|].
  intros [entries borg_repos]. apply keeps_ret.
Qed.

Lemma quiet_deliver c entries : Step.keeps Notify.sent (Step.deliver w c entries).
Proof.
  unfold Step.deliver. destruct (BackupsReporter.email c); [|apply keeps_ret].
  unfold EmailReporter.send_report.
  apply keeps_try; [|intros e; apply keeps_raise].
  apply keeps_bind; [apply keeps_get|intros tr0].
  apply keeps_bind; [apply keeps_lift|intros html].
  apply keeps_bind; [|intros _; apply keeps_lift].
  apply keeps_emit. intros tr. apply sent_snoc. discriminate.
Qed.

Lemma quiet_unmount_all borg_repos :
  Step.keeps Notify.sent (BackupsReporter.unmount_all borg_repos).
Proof.
  unfold BackupsReporter.unmount_all. apply keeps_for_each.
  intros [[i env] r] tr. rewrite unmount_returns. cbn [snd].
  apply sent_snoc. discriminate.
Qed.

Hypothesis Htransport : transport_failures_only w.

(** One turn of the loop of [ping]: the request that the webhook is to
    get goes out, and the turn ends normally whatever the answer. *)
Lemma ping_one_sent status message webhook tr :
  exists ev,
    try_except (WebhookNotifier.send_one w status message webhook)
      isinstance_RequestException (fun _ => ret tt) tr
    = (Ret tt, tr ++ [ev])
    /\ Notify.digest ev = [Notify.expected status message webhook].
Proof.
  unfold WebhookNotifier.send_one, Notify.expected.
  change (Notify.health_check webhook) with (WebhookNotifier.is_healthcheck webhook).
  change (Notify.address status webhook)
    with (WebhookNotifier.healthcheck_url status webhook).
  destruct (WebhookNotifier.is_healthcheck webhook);
    eexists; unfold try_except, bind, WebhookNotifier.post, bind, get, emit, modify, lift;
    simpl;
    match goal with
    | |- context [http_post w ?t ?u ?b] =>
        destruct (http_post w t u b) as [code|e] eqn:E
    end; simpl.
  1, 3: unfold WebhookNotifier.raise_for_status;
        destruct ((400 <=? code) && (code <? 600)); split; reflexivity.
  all: rewrite (Htransport _ _ _ _ E); split; reflexivity.
Qed.

Lemma ping_all_sent webhooks status message : forall tr,
  exists tr',
    WebhookNotifier.ping w webhooks status message tr = (Ret tt, tr')
    /\ Notify.sent tr'
       = Notify.sent tr ++ map (Notify.expected status message) webhooks.
Proof.
  unfold WebhookNotifier.ping.
  induction webhooks as [|webhook webhooks IH]; intros tr; simpl.
  - exists tr. now rewrite app_nil_r.
  - unfold bind at 1.
    destruct (ping_one_sent status message webhook tr) as (ev & -> & Hev).
    destruct (IH (tr ++ [ev])) as (tr' & -> & Hsent).
    exists tr'. split; [reflexivity|].
    rewrite Hsent, sent_app. unfold Notify.sent at 2. cbn [flat_map].
    rewrite Hev, <- app_assoc. reflexivity.
Qed.

Lemma notify_sent c status message tr :
  exists tr',
    BackupsReporter.notify w c status message tr = (Ret tt, tr')
    /\ Notify.sent tr' = Notify.sent tr ++ Notify.expected_all c status message.
Proof.
  unfold BackupsReporter.notify, Notify.expected_all.
  destruct (BackupsReporter.webhooks c) as [hooks|].
  - apply ping_all_sent.
  - exists tr. split; [reflexivity|]. now rewrite app_nil_r.
Qed.

(** The [try] block sends the success notification, with the number of
    entries reported, when it ends well, and nothing otherwise. *)
Lemma run_body_sent c tr1 :
  exists o tr2,
    BackupsReporter.run_body w c tr1 = (o, tr2)
    /\ Notify.sent tr2
       = Notify.sent tr1
         ++ match o with
            | Ret _ => Notify.expected_all c "success" (Notify.final_message c o)
            | Raise _ => []
            end.
Proof.
  unfold BackupsReporter.run_body. unfold bind at 1.
  destruct (aggregate_result c tr1) as (mounted & tra & Ea & _).
  pose proof (quiet_aggregate c tr1) as Ha. rewrite Ea in Ha. cbn [snd] in Ha.
  rewrite Ea.
  set (entries := slice_to (sort_desc (Listing.concatenation c))
                    (get_default (BackupsReporter.max_total_entries c) 100)).
  change (match BackupsReporter.email c with
          | Some email_config => EmailReporter.send_report w email_config entries
          | None => ret tt
          end)
    with (Step.deliver w c entries).
  unfold bind at 1.
  pose proof (quiet_deliver c entries tra) as Hd.
  destruct (Step.deliver w c entries tra) as [[[]|e] trs]; cbn [fst snd] in *.
  - unfold bind at 1.
    pose proof (quiet_unmount_all mounted trs) as Hu.
    destruct (unmount_all_returns 0 mounted trs) as (tru & Eu & _).
    rewrite Eu in *. cbn [snd] in Hu.
    destruct (notify_sent c "success"
                ("Backups report generated successfully with "
                   ++ PyFmt.str_int (Z.of_nat (List.length entries)) ++ " entries") tru)
      as (tr2 & E2 & Hp).
    exists (Ret tt), tr2. split; [exact E2|]. rewrite Hp, Hu, Hd, Ha. reflexivity.
  - exists (Raise e), trs. split; [reflexivity|]. rewrite app_nil_r, Hd, Ha. reflexivity.
Qed.

Lemma run_sent c tr :
  exists o tr',
    BackupsReporter.run w c tr = (o, tr')
    /\ Notify.sent tr'
       = Notify.sent tr
         ++ Notify.expected_all c "start" "Backups report generation started"
         ++ Notify.expected_all c (Step.final_status o) (Notify.final_message c o).
Proof.
  unfold BackupsReporter.run. unfold bind at 1.
  destruct (notify_sent c "start" "Backups report generation started" tr)
    as (tr1 & -> & Hp1).
  unfold try_except.
  destruct (run_body_sent c tr1) as (o & tr2 & -> & Hp).
  destruct o as [[]|e].
  - exists (Ret tt), tr2. split; [reflexivity|].
    cbn [Step.final_status]. rewrite Hp, Hp1, <- app_assoc. reflexivity.
  - unfold isinstance_Exception. cbv beta iota. unfold bind.
    destruct (notify_sent c "fail"
                ("Backups report generation failed: " ++ BackupsReporter.str_exn e) tr2)
      as (tr3 & -> & Hp3).
    exists (Raise e), tr3. cbn [raise Step.final_status Notify.final_message].
    split; [reflexivity|].
    rewrite Hp3, Hp, app_nil_r, Hp1, <- app_assoc. reflexivity.
Qed.

End SentFacts.

(** X11. A run tells every webhook how it started and how it ended.  When
    the failures of the HTTP layer are transport failures, the requests of a
    run, with their addresses and with what they carry, are these and no
    others: first one to each webhook, in order, with the status [start]
    and the message that the generation started; then one to each webhook,
    in order, with the status [success] and the number of entries reported
    if the run returns normally, and with the status [fail] and the
    exception if it raises.  A webhook in which [healthchecks.io] occurs, or
    which ends in [/start] or [/fail], gets the message as text at the
    address of the status; any other webhook gets status and message as
    JSON at the webhook itself. *)
Theorem run_notifies_start_and_end (w : World) (c : BackupsReporter.Config)
    (tr : trace) :
  transport_failures_only w ->
  exists o tr',
    BackupsReporter.run w c tr = (o, tr')
    /\ Notify.sent tr'
       = Notify.sent tr
         ++ Notify.expected_all c "start" "Backups report generation started"
         ++ Notify.expected_all c (Step.final_status o) (Notify.final_message c o).
Proof. intros H. now apply run_sent. Qed.


Lemma smtp_down_transport : transport_failures_only Samples.smtp_down.
Proof. intros tr url body e H. discriminate H. Qed.

Lemma run_notifies_sample :
  transport_failures_only Samples.smtp_down
  /\ exists o tr',
       BackupsReporter.run Samples.smtp_down Samples.config [] = (o, tr')
       /\ Notify.sent tr'
          = Notify.sent []
            ++ Notify.expected_all Samples.config "start"
                 "Backups report generation started"
            ++ Notify.expected_all Samples.config (Step.final_status o)
                 (Notify.final_message Samples.config o).
Proof.
  split; [exact smtp_down_transport|].
  exact (run_notifies_start_and_end Samples.smtp_down Samples.config []
           smtp_down_transport).
Defined.

(** The requests of the sample run in which the SMTP server refuses the
    message. *)
Example run_notifies_failure :
  Notify.sent (snd (BackupsReporter.run Samples.smtp_down Samples.config []))
  = [("https://a.example/hook",
      Notify.Json "start" "Backups report generation started");
     ("https://hc-ping.com/uuid/start",
      Notify.Data "Backups report generation started");
     ("https://a.example/hook",
      Notify.Json "fail" "Backups report generation failed: SMTPException");
     ("https://hc-ping.com/uuid/start/fail",
      Notify.Data "Backups report generation failed: SMTPException")]%string.
Proof. vm_compute. reflexivity. Qed.



(** ** The command line *)

(** X13. The exit status of [main] is 0 or 1, and it is 0 exactly when at
    most one argument follows the name of the script, the configuration
    file (the argument, or [config.yaml] without one) exists, the reporter
    can be constructed from it and its run returns normally. *)
Theorem main_exit_status (w : World) (env : Main.Env) (argv : list string)
    (tr : trace) :
  (Main.exit_status (Main.main w env argv tr) = 0
   \/ Main.exit_status (Main.main w env argv tr) = 1)
  /\ (Main.exit_status (Main.main w env argv tr) = 0 <->
      (List.length argv <= 2)%nat
      /\ Main.path_exists env (Main.config_file argv) = true
      /\ exists c,
           Main.construct env (Main.config_file argv) = Ret c
           /\ fst (BackupsReporter.run w c tr) = Ret tt).
Proof.
  unfold Main.main, Main.exit_status.
  destruct (Nat.ltb_spec 2 (List.length argv)) as [Hlen|Hlen].
  { split; [now right|]. split; [discriminate|]. intros [H _]. lia. }
  destruct (Main.path_exists env (Main.config_file argv)) eqn:Hex; cbn [negb].
  2:{ split; [now right|]. split; [discriminate|]. intros (_ & H & _). discriminate. }
  destruct (Main.construct env (Main.config_file argv)) as [c|e] eqn:Hc.
  2:{ split; [now right|]. split; [discriminate|].
      intros (_ & _ & c & H & _). discriminate. }
  destruct (BackupsReporter.run w c tr) as [[[]|e] tr'] eqn:Hr; cbn [fst].
  - split; [now left|]. split; [|reflexivity].
    intros _. split; [exact Hlen|]. split; [reflexivity|].
    exists c. split; [reflexivity|]. now rewrite Hr.
  - split; [now right|]. split; [discriminate|].
    intros (_ & _ & c' & H & Hret). injection H as <-.
    rewrite Hr in Hret. discriminate.
Qed.

Lemma main_exit_status_sample :
  let env := Main.mkEnv (fun _ => true) (fun _ => Ret Samples.config) in
  (List.length ["backups_reporter.py"; "prod.yaml"]%string <= 2)%nat
  /\ Main.path_exists env (Main.config_file ["backups_reporter.py"; "prod.yaml"]%string)
     = true
  /\ Main.exit_status
       (Main.main Samples.calm env ["backups_reporter.py"; "prod.yaml"]%string []) = 0.
Proof.
  intros env.
  assert (H1 : (List.length ["backups_reporter.py"; "prod.yaml"]%string <= 2)%nat)
    by (simpl; lia).
  assert (H2 : Main.path_exists env
                 (Main.config_file ["backups_reporter.py"; "prod.yaml"]%string) = true)
    by reflexivity.
  split; [exact H1|]. split; [exact H2|].
  apply (proj2 (proj2 (main_exit_status Samples.calm env
                         ["backups_reporter.py"; "prod.yaml"]%string []))).
  split; [exact H1|]. split; [exact H2|].
  exists Samples.config. split; [reflexivity|vm_compute; reflexivity].
Defined.



(** ** The addresses of the health checks *)

Section UrlFacts.
Local Open Scope string_scope.

Lemma endswith_refl suffix : PyStr.endswith suffix suffix = true.
Proof. destruct suffix; simpl; [reflexivity|]. now rewrite Ascii.eqb_refl, String.eqb_refl. Qed.

Lemma endswith_suffix p suffix : PyStr.endswith suffix (p ++ suffix) = true.
Proof. apply endswith_app, endswith_refl. Qed.

Lemma replace_absent old new s :
  PyStr.contains old s = false -> PyStr.replace_from old new 0 s = s.
Proof.
  induction s as [|c s IH]; intros H; [reflexivity|].
  cbn [PyStr.contains] in H. apply orb_false_iff in H. destruct H as [Hp Hc].
  cbn [PyStr.replace_from]. rewrite Hp, (IH Hc). reflexivity.
Qed.

(** An address cannot end in [/start] and in [/fail]. *)
Lemma start_excludes_fail s :
  PyStr.endswith "/start" s = true -> PyStr.endswith "/fail" s = false.
Proof.
  induction s as [|c s IH]; [discriminate|].
  cbn [PyStr.endswith]. intros H. apply orb_true_iff in H.
  apply orb_false_iff. destruct H as [H|H].
  - apply String.eqb_eq in H. injection H as -> ->. split; reflexivity.
  - split; [|now apply IH].
    destruct (String.eqb (String c s) "/fail") eqn:E; [|reflexivity].
    apply String.eqb_eq in E. injection E as _ ->. discriminate H.
Qed.

Lemma fail_excludes_start s :
  PyStr.endswith "/fail" s = true -> PyStr.endswith "/start" s = false.
Proof.
  intros H. destruct (PyStr.endswith "/start" s) eqn:E; [|reflexivity].
  apply start_excludes_fail in E. congruence.
Qed.

Lemma healthcheck_start webhook :
  WebhookNotifier.healthcheck_url "start" webhook
  = if PyStr.endswith "/start" webhook then webhook else webhook ++ "/start".
Proof. reflexivity. Qed.

Lemma healthcheck_fail webhook :
  WebhookNotifier.healthcheck_url "fail" webhook
  = if PyStr.endswith "/fail" webhook then webhook else webhook ++ "/fail".
Proof. reflexivity. Qed.

End UrlFacts.

(** X15. A health check is told of a start at an address that ends in
    [/start] and of a failure at an address that ends in [/fail]: the
    suffix is added when the webhook does not have it, and adding it twice
    changes nothing. *)
Theorem healthcheck_url_suffix (webhook : string) :
  PyStr.endswith "/start" (WebhookNotifier.healthcheck_url "start" webhook) = true
  /\ PyStr.endswith "/fail" (WebhookNotifier.healthcheck_url "fail" webhook) = true
  /\ WebhookNotifier.healthcheck_url "start"
       (WebhookNotifier.healthcheck_url "start" webhook)
     = WebhookNotifier.healthcheck_url "start" webhook
  /\ WebhookNotifier.healthcheck_url "fail"
       (WebhookNotifier.healthcheck_url "fail" webhook)
     = WebhookNotifier.healthcheck_url "fail" webhook.
Proof.
  assert (Hs : PyStr.endswith "/start" (WebhookNotifier.healthcheck_url "start" webhook)
               = true).
  { rewrite healthcheck_start.
    destruct (PyStr.endswith "/start" webhook) eqn:E; [exact E|].
    apply endswith_suffix. }
  assert (Hf : PyStr.endswith "/fail" (WebhookNotifier.healthcheck_url "fail" webhook)
               = true).
  { rewrite healthcheck_fail.
    destruct (PyStr.endswith "/fail" webhook) eqn:E; [exact E|].
    apply endswith_suffix. }
  split; [exact Hs|]. split; [exact Hf|]. split.
  - rewrite (healthcheck_start (WebhookNotifier.healthcheck_url "start" webhook)).
    now rewrite Hs.
  - rewrite (healthcheck_fail (WebhookNotifier.healthcheck_url "fail" webhook)).
    now rewrite Hf.
Qed.

Section SuffixFacts.
Variable w : World.

(** The trace of a ping of one health check, whatever the answer. *)
Lemma ping_health_check status message webhook tr :
  WebhookNotifier.is_healthcheck webhook = true ->
  snd (WebhookNotifier.ping w [webhook] status message tr)
  = tr ++ [HttpPost (WebhookNotifier.healthcheck_url status webhook) (DataBody message)].
Proof.
  intros H. unfold WebhookNotifier.ping. cbn [for_each].
  unfold bind at 1, try_except, WebhookNotifier.send_one. rewrite H.
  unfold bind, WebhookNotifier.post, bind, get, emit, modify, lift. cbn [fst snd].
  destruct (http_post w tr _ _) as [code|e]; cbn [fst snd].
  - unfold WebhookNotifier.raise_for_status.
    destruct ((400 <=? code) && (code <? 600)); cbn [raise ret];
      [destruct (isinstance_RequestException RequestException)|]; reflexivity.
  - destruct (isinstance_RequestException e); reflexivity.
Qed.

End SuffixFacts.

(** X16. Only one suffix is looked at.  A webhook that ends in [/start] is
    taken for a health check, and [ping] with the status [fail] posts the
    message to the webhook followed by [/fail], the [/start] still in it;
    a webhook that ends in [/fail] is taken for a health check too, and
    [ping] with the status [start] posts the message to the webhook
    followed by [/start].  This is the one request of the call, whatever
    the endpoint answers. *)
Theorem healthcheck_url_keeps_other_suffix (w : World) (webhook message : string)
    (tr : trace) :
  (PyStr.endswith "/start" webhook = true ->
   snd (WebhookNotifier.ping w [webhook] "fail" message tr)
   = tr ++ [HttpPost (webhook ++ "/fail") (DataBody message)])
  /\ (PyStr.endswith "/fail" webhook = true ->
      snd (WebhookNotifier.ping w [webhook] "start" message tr)
      = tr ++ [HttpPost (webhook ++ "/start") (DataBody message)]).
Proof.
  split; intros H.
  - rewrite ping_health_check.
    + now rewrite healthcheck_fail, (start_excludes_fail webhook H).
    + unfold WebhookNotifier.is_healthcheck. rewrite H.
      now rewrite orb_true_r.
  - rewrite ping_health_check.
    + now rewrite healthcheck_start, (fail_excludes_start webhook H).
    + unfold WebhookNotifier.is_healthcheck. rewrite H.
      now rewrite orb_true_r.
Qed.

Lemma healthcheck_url_keeps_sample :
  PyStr.endswith "/start" "https://hc-ping.com/uuid/start" = true
  /\ snd (WebhookNotifier.ping Samples.calm ["https://hc-ping.com/uuid/start"%string]
            "fail" "down" [])
     = [] ++ [HttpPost "https://hc-ping.com/uuid/start/fail" (DataBody "down")].
Proof.
  assert (H : PyStr.endswith "/start" "https://hc-ping.com/uuid/start" = true)
    by reflexivity.
  split; [exact H|].
  exact (proj1 (healthcheck_url_keeps_other_suffix Samples.calm
                  "https://hc-ping.com/uuid/start" "down" []) H).
Defined.

(** X17. A status other than [start] and [fail] is reported at the webhook
    itself when neither [/start] nor [/fail] occurs in it. *)
Theorem healthcheck_url_plain (status webhook : string) :
  String.eqb status "start" = false ->
  String.eqb status "fail" = false ->
  PyStr.contains "/start" webhook = false ->
  PyStr.contains "/fail" webhook = false ->
  WebhookNotifier.healthcheck_url status webhook = webhook.
Proof.
  intros H1 H2 H3 H4. unfold WebhookNotifier.healthcheck_url, PyStr.replace.
  rewrite H1, H2, (replace_absent _ _ _ H3), (replace_absent _ _ _ H4). reflexivity.
Qed.

Lemma healthcheck_url_plain_sample :
  String.eqb "success" "start" = false
  /\ String.eqb "success" "fail" = false
  /\ PyStr.contains "/start" "https://healthchecks.io/ping/uuid" = false
  /\ PyStr.contains "/fail" "https://healthchecks.io/ping/uuid" = false
  /\ WebhookNotifier.healthcheck_url "success" "https://healthchecks.io/ping/uuid"
     = "https://healthchecks.io/ping/uuid"%string.
Proof.
  assert (H1 : String.eqb "success" "start" = false) by reflexivity.
  assert (H2 : String.eqb "success" "fail" = false) by reflexivity.
  assert (H3 : PyStr.contains "/start" "https://healthchecks.io/ping/uuid" = false)
    by reflexivity.
  assert (H4 : PyStr.contains "/fail" "https://healthchecks.io/ping/uuid" = false)
    by reflexivity.
  repeat (split; [assumption|]).
  exact (healthcheck_url_plain "success" "https://healthchecks.io/ping/uuid" H1 H2 H3 H4).
Defined.

(** ** Sizes that are printed exactly, and sizes that can be printed *)

Section ExactFacts.

(** A whole number of units is printed with the decimal 0. *)
Lemma fixed1_whole k d :
  0 <= k -> 0 < d -> PyFmt.fixed1 (k * d) d = (PyFmt.str_int k ++ ".0")%string.
Proof.
  intros Hk Hd. unfold PyFmt.fixed1. cbv zeta.
  rewrite (Z.abs_eq (k * d)) by nia.
  replace (10 * (k * d)) with (10 * k * d) by ring.
  rewrite Z.div_mul, Z.mod_mul by lia.
  replace (d <? 2 * 0) with false by (symmetry; apply Z.ltb_ge; lia).
  replace (2 * 0 =? d) with false by (symmetry; apply Z.eqb_neq; lia).
  cbn [orb andb].
  replace (k * d <? 0) with false by (symmetry; apply Z.ltb_ge; nia).
  replace (10 * k / 10) with k by (rewrite Z.mul_comm, Z.div_mul; lia).
  replace (10 * k mod 10) with 0 by (rewrite Z.mul_comm, Z.mod_mul; lia).
  reflexivity.
Qed.

(** Every integer of magnitude below [2^1023] has a float. *)
Lemma float_of_int_returns n :
  Z.abs n < 2 ^ 1023 -> exists m, PyFmt.float_of_int n = Ret m.
Proof.
  intros Hn. unfold PyFmt.float_of_int.
  destruct (Z.abs n <? 2 ^ 53) eqn:E; [eauto|].
  apply Z.ltb_ge in E.
  set (a := Z.abs n) in *.
  assert (Ha : 0 < a) by (assert (0 < 2 ^ 53) by (apply Z.pow_pos_nonneg; lia); lia).
  pose proof (Z.log2_spec a Ha) as [Hlo Hhi].
  assert (Hlog : 53 <= Z.log2 a < 1023).
  { split.
    - change 53 with (Z.log2 (2 ^ 53)). now apply Z.log2_le_mono.
    - apply Z.log2_lt_pow2; [exact Ha|exact Hn]. }
  set (e := Z.log2 a - 52) in *.
  assert (He : 1 <= e <= 970) by (unfold e; lia).
  set (q := Z.shiftr a e).
  assert (Hq : q < 2 ^ 53).
  { unfold q. rewrite Z.shiftr_div_pow2 by lia.
    apply Z.div_lt_upper_bound; [apply Z.pow_pos_nonneg; lia|].
    rewrite <- Z.pow_add_r by lia.
    replace (e + 53) with (Z.succ (Z.log2 a)) by (unfold e; lia). exact Hhi. }
  match goal with
  | |- context [Z.shiftl ?x e] =>
      match x with
      | q => fail 1
      | _ => set (q' := x)
      end
  end.
  assert (Hq' : q' <= 2 ^ 53) by (unfold q'; destruct (_ || _); lia).
  assert (Hq0 : 0 <= q') .
  { assert (0 <= q) by (unfold q; apply Z.shiftr_nonneg; lia).
    unfold q'. destruct (_ || _); lia. }
  assert (Hm : Z.shiftl q' e < 2 ^ 1024).
  { rewrite Z.shiftl_mul_pow2 by lia.
    assert (H1 : q' * 2 ^ e <= 2 ^ 53 * 2 ^ e).
    { apply Z.mul_le_mono_nonneg_r; [apply Z.pow_nonneg; lia|exact Hq']. }
    assert (H2 : 2 ^ 53 * 2 ^ e <= 2 ^ 53 * 2 ^ 970).
    { apply Z.mul_le_mono_nonneg_l; [apply Z.pow_nonneg; lia|].
      apply Z.pow_le_mono_r; lia. }
    assert (H3 : 2 ^ 53 * 2 ^ 970 < 2 ^ 1024).
    { rewrite <- Z.pow_add_r by lia. apply Z.pow_lt_mono_r; lia. }
    lia. }
  destruct (2 ^ 1024 <=? Z.shiftl q' e) eqn:El; [apply Z.leb_le in El; lia|eauto].
Qed.

Lemma format_size_returns size :
  match size with Some n => Z.abs n < 2 ^ 1023 | None => True end ->
  exists text, EmailReporter.format_size size = Ret text.
Proof.
  destruct size as [n|]; [|intros _; eexists; reflexivity].
  intros H. rewrite format_size_closed.
  destruct (float_of_int_returns n H) as [m ->]. cbn [obind]. eauto.
Qed.

Lemma render_rows_returns entries : forall html,
  Forall (fun e => match size e with
                   | Some n => Z.abs n < 2 ^ 1023
                   | None => True
                   end) entries ->
  exists html', EmailReporter.render_rows entries html = Ret html'.
Proof.
  induction entries as [|entry entries IH]; intros html H;
    cbn [EmailReporter.render_rows]; [eauto|].
  apply Forall_cons_iff in H. destruct H as [He H].
  unfold EmailReporter.render_row.
  destruct (format_size_returns (size entry) He) as [text ->].
  cbn [obind]. apply IH. exact H.
Qed.

End ExactFacts.

(** X18. Sizes that are a whole number of units are printed exactly: a
    size below 1024 as its number followed by [.0 B], and [k] times the
    [j]-th power of 1024, for [k] from 1 to 1023 and [j] from 1 to 4, as
    [k] followed by [.0] and the unit KB, MB, GB or TB. *)
Theorem format_size_whole_units :
  (forall n, 0 <= n < 1024 ->
     EmailReporter.format_size (Some n) = Ret (PyFmt.str_int n ++ ".0 B")%string)
  /\ (forall k j, 1 <= k < 1024 -> (1 <= j <= 4)%nat ->
        EmailReporter.format_size (Some (k * 1024 ^ Z.of_nat j))
        = Ret (PyFmt.str_int k ++ ".0 " ++ SizeUnit.name j)%string).
Proof.
  split.
  - intros n Hn. rewrite format_size_closed.
    rewrite float_of_int_small by (change (2 ^ 53) with 9007199254740992; lia).
    assert (Hs : SizeUnit.scale n = 0%nat).
    { unfold SizeUnit.scale. destruct (Z.ltb_spec n 1024); [reflexivity|lia]. }
    rewrite Hs. cbn [obind]. f_equal.
    change (1024 ^ Z.of_nat 0) with 1.
    rewrite <- (Z.mul_1_r n) at 1. rewrite fixed1_whole by lia.
    rewrite str_app_assoc. reflexivity.
  - intros k j Hk Hj.
    assert (Hcases : j = 1%nat \/ j = 2%nat \/ j = 3%nat \/ j = 4%nat) by lia.
    rewrite format_size_closed.
    assert (Hsmall : Z.abs (k * 1024 ^ Z.of_nat j) < 2 ^ 53).
    { change (2 ^ 53) with 9007199254740992.
      destruct Hcases as [-> | [-> | [-> | ->]]]; cbn; lia. }
    rewrite (float_of_int_small _ Hsmall). cbn [obind].
    assert (Hs : SizeUnit.scale (k * 1024 ^ Z.of_nat j) = j).
    { unfold SizeUnit.scale.
      destruct Hcases as [-> | [-> | [-> | ->]]]; cbn;
        repeat match goal with
               | |- context [?a <? ?b] => destruct (Z.ltb_spec a b)
               end; lia. }
    rewrite Hs. f_equal.
    rewrite fixed1_whole; [|lia|apply Z.pow_pos_nonneg; lia].
    rewrite str_app_assoc. reflexivity.
Qed.

Lemma format_size_whole_units_sample :
  1 <= 512 < 1024
  /\ (1 <= 3 <= 4)%nat
  /\ EmailReporter.format_size (Some (512 * 1024 ^ Z.of_nat 3))
     = Ret (PyFmt.str_int 512 ++ ".0 " ++ SizeUnit.name 3)%string.
Proof.
  assert (H1 : 1 <= 512 < 1024) by lia.
  assert (H2 : (1 <= 3 <= 4)%nat) by lia.
  split; [exact H1|]. split; [exact H2|].
  exact (proj2 format_size_whole_units 512 3%nat H1 H2).
Defined.

(** X19. The report can be rendered for every list of entries whose sizes
    have a magnitude below [2^1023]: [_generate_html_report] then returns a
    document, at every time and however many entries there are. *)
Theorem report_renders_all_byte_counts (now : datetime) (entries : list BackupEntry) :
  Forall (fun e => match size e with
                   | Some n => Z.abs n < 2 ^ 1023
                   | None => True
                   end) entries ->
  exists document, EmailReporter._generate_html_report now entries = Ret document.
Proof.
  intros H. unfold EmailReporter._generate_html_report. cbv zeta.
  destruct (render_rows_returns entries
              (EmailReporter.header_0 ++ (PyFmt.strftime now ++ " UTC")
               ++ EmailReporter.header_1
               ++ PyFmt.str_int (Z.of_nat (List.length entries))
               ++ EmailReporter.header_2)%string H) as [html' ->].
  cbn [obind]. eauto.
Qed.

Lemma report_renders_sample :
  Forall (fun e => match size e with
                   | Some n => Z.abs n < 2 ^ 1023
                   | None => True
                   end)
    [mkBackupEntry "s3:offsite" "db.dump" Samples.new_year (Some 1048576) "s3_object"]
  /\ exists document,
       EmailReporter._generate_html_report Samples.new_year
         [mkBackupEntry "s3:offsite" "db.dump" Samples.new_year (Some 1048576) "s3_object"]
       = Ret document.
Proof.
  assert (H : Forall (fun e => match size e with
                               | Some n => Z.abs n < 2 ^ 1023
                               | None => True
                               end)
                [mkBackupEntry "s3:offsite" "db.dump" Samples.new_year (Some 1048576)
                   "s3_object"]).
  { constructor; [|constructor]. cbn [size].
    apply Z.lt_trans with (2 ^ 53); [reflexivity|].
    apply Z.pow_lt_mono_r; lia. }
  split; [exact H|].
  exact (report_renders_all_byte_counts Samples.new_year _ H).
Defined.

(** A size of [2^1024] bytes cannot be made a float: rendering raises. *)
Example report_overflow :
  EmailReporter._generate_html_report Samples.new_year
    [mkBackupEntry "s3:offsite" "db.dump" Samples.new_year (Some (2 ^ 1024)) "s3_object"]
  = Raise OverflowError.
Proof. vm_compute. reflexivity. Qed.

(** ** The archive adapter when the listing works *)

Section ArchiveFacts.

Lemma scan_returns directory_path readable children :
  exists n,
    BorgRepository._calculate_directory_size directory_path readable children = Ret n.
Proof.
  unfold BorgRepository._calculate_directory_size, try_except.
  destruct (BorgRepository.scan_walk _ _) as [[[]|e] c]; simpl; eauto.
Qed.

(** An item that can be looked at adds one entry if it is a directory and
    none otherwise, whatever its files do during the scan. *)
Lemma append_inspectable mp c item entries :
  Archive.inspectable item ->
  exists entries',
    BorgRepository.append_archive mp c item entries = (Ret tt, entries')
    /\ List.length entries'
       = (List.length entries
          + match BorgRepository.is_dir item with Ret true => 1 | _ => 0 end)%nat.
Proof.
  unfold BorgRepository.append_archive, BorgRepository.archive_entry, bind, lift, obind.
  intros [H|[H [mtime Hm]]]; rewrite H.
  - exists entries. split; [reflexivity|]. lia.
  - rewrite Hm. destruct (BorgRepository.calculate_sizes c).
    + destruct (scan_returns (mp ++ "/" ++ BorgRepository.item_name item)
                  (BorgRepository.scannable item) (BorgRepository.contents item))
        as [n ->].
      eexists. split; [reflexivity|]. rewrite length_app. simpl. lia.
    + eexists. split; [reflexivity|]. rewrite length_app. simpl. lia.
Qed.

Lemma collect_inspectable mp c items : forall entries,
  Forall Archive.inspectable items ->
  exists entries',
    for_each items (BorgRepository.append_archive mp c) entries = (Ret tt, entries')
    /\ List.length entries'
       = (List.length entries
          + List.length (filter (fun item => match BorgRepository.is_dir item with
                                             | Ret true => true
                                             | _ => false
                                             end) items))%nat.
Proof.
  induction items as [|item items IH]; intros entries H; cbn [for_each filter].
  - exists entries. split; [reflexivity|]. simpl. lia.
  - apply Forall_cons_iff in H. destruct H as [Hi H].
    destruct (append_inspectable mp c item entries Hi) as (e1 & E1 & L1).
    destruct (IH e1 H) as (e2 & E2 & L2).
    exists e2. unfold bind. rewrite E1. split; [exact E2|].
    rewrite L2, L1.
    destruct (BorgRepository.is_dir item) as [[]|]; simpl; lia.
Qed.

End ArchiveFacts.

(** X20. When the children of the mount point can be looked at and the
    directory iterator does not raise, [list_archives] of an attached
    repository returns one entry for each child directory, up to [limit]:
    files among the children are passed over, and no error of a file during
    the size scan, not even one that ends the scan, takes an archive out of
    the listing. *)
Theorem list_archives_counts_directories (env : BorgRepository.Env)
    (r : BorgRepository.t) (limit : Z) (mp : string) :
  BorgRepository.mount_point r = Some mp ->
  String.eqb mp EmptyString = false ->
  BorgRepository.iterdir_error env = None ->
  Forall Archive.inspectable (BorgRepository.iterdir_items env) ->
  0 <= limit ->
  List.length (BorgRepository.list_archives env r limit)
  = Nat.min (Z.to_nat limit) (List.length (Archive.directories env)).
Proof.
  intros Hmp Hne Herr Hitems Hlimit.
  unfold BorgRepository.list_archives, BorgRepository.collect_archives, bind.
  rewrite Hmp, Hne.
  destruct (collect_inspectable mp (BorgRepository.config r)
              (BorgRepository.iterdir_items env) [] Hitems) as (entries & -> & Hlen).
  rewrite Herr. cbn [ret].
  rewrite slice_sort_length by exact Hlimit.
  rewrite Hlen. reflexivity.
Qed.

Lemma list_archives_counts_sample :
  let r := Listing.after_mount Samples.nas Samples.nas_up in
  BorgRepository.mount_point r = Some "/tmp/borg_nas_k3"%string
  /\ String.eqb "/tmp/borg_nas_k3" EmptyString = false
  /\ BorgRepository.iterdir_error Samples.nas_up = None
  /\ Forall Archive.inspectable (BorgRepository.iterdir_items Samples.nas_up)
  /\ 0 <= 1
  /\ List.length (BorgRepository.list_archives Samples.nas_up r 1)
     = Nat.min (Z.to_nat 1) (List.length (Archive.directories Samples.nas_up)).
Proof.
  intros r.
  assert (H1 : BorgRepository.mount_point r = Some "/tmp/borg_nas_k3"%string)
    by reflexivity.
  assert (H2 : String.eqb "/tmp/borg_nas_k3" EmptyString = false) by reflexivity.
  assert (H3 : BorgRepository.iterdir_error Samples.nas_up = None) by reflexivity.
  assert (H4 : Forall Archive.inspectable (BorgRepository.iterdir_items Samples.nas_up)).
  { constructor; [right; split; [reflexivity|eexists; reflexivity]|].
    constructor; [right; split; [reflexivity|eexists; reflexivity]|].
    constructor. }
  assert (H5 : 0 <= 1) by lia.
  repeat (split; [assumption|]).
  exact (list_archives_counts_directories Samples.nas_up r 1 _ H1 H2 H3 H4 H5).
Defined.
